(** * jquery.tappable.js: the tap state machine and its binder

    A shallow embedding of [src/jquery.tappable.js] ([$.fn.tappable]) and the
    properties of its per-element marker state machine.

    The plugin keeps its state in three CSS classes of the element
    (['touch-started'], ['touched'], ['touch-ended']) and in the callbacks it
    hands to [window.setTimeout].  The embedding therefore has
    - JavaScript values as far as the plugin inspects them ([typeof],
      truthiness, property access on the options object);
    - a world with the class set of every element, the pending timeouts,
      the log of [callback.call(el, event)] invocations, the events whose
      default action was prevented and the application state read and
      written by the caller-supplied functions;
    - the five event handlers and the timeout callback, written in a small
      state-and-exception monad in the order of the source statements;
    - the host event loop as a list of labels: DOM events dispatched to an
      element, a pending timeout being run, and the application changing
      its own state between two tasks.

    Modelling decisions that are not in the source text:
    - caller-supplied functions ([callback], [onlyIf]) act on the
      application state only; they do not touch the three marker classes,
      the timeout queue or the handlers themselves;
    - one call of [$.fn.tappable] is considered at a time (its handlers are
      the only ones bound to the elements);
    - an event is delivered to one bound element at a time: a label names
      the element whose handlers run (jQuery's [this]), which for an event
      on a descendant is the bound ancestor it bubbles to; an event that
      reaches several bound elements is one delivery after the other;
    - wall-clock time is not represented: a timeout may run at any task
      boundary after it was scheduled, never inside the handler that
      scheduled it.  The requested delay is kept in the timer record. *)

From Stdlib Require Import ZArith.
From stdpp Require Import base tactics option list strings gmap sets functions.

Local Open Scope string_scope.
Local Open Scope list_scope.

#[local] Set Warnings "-register-all,-clear-no-such-hyp".

(** ** JavaScript values *)

(** Function objects.  [FnConstTrue] is the literal
    [function() { return true }] of line 68; every other function comes
    from the caller and is known by its identity only. *)
Inductive fn : Type :=
  | FnUser (id : nat)
  | FnConstTrue.

Inductive jsval : Type :=
  | VUndefined
  | VNull
  | VBool (b : bool)
  | VNum (n : Z)
  | VStr (s : string)
  | VFun (f : fn)
  | VElem (el : nat)
  | VEvent (ev : nat)
  | VObj (fields : list (string * jsval)).

(** The results of [typeof]: ['undefined'], ['object'], ['boolean'],
    ['number'], ['string'], ['function']. *)
Inductive jstype : Type :=
  | TUndefined | TObject | TBoolean | TNumber | TString | TFunction.

Definition typeof (v : jsval) : jstype :=
  match v with
  | VUndefined => TUndefined
  | VNull => TObject
  | VBool _ => TBoolean
  | VNum _ => TNumber
  | VStr _ => TString
  | VFun _ => TFunction
  | VElem _ | VEvent _ | VObj _ => TObject
  end.

Definition is_function (v : jsval) : bool :=
  match typeof v with TFunction => true | _ => false end.

Definition is_undefined (v : jsval) : bool :=
  match typeof v with TUndefined => true | _ => false end.

(** ToBoolean, as used by [if (cancelOnMove)] and [if (onlyIf(this))]. *)
Definition truthy (v : jsval) : bool :=
  match v with
  | VUndefined | VNull => false
  | VBool b => b
  | VNum n => negb (n =? 0)%Z
  | VStr s => negb (String.length s =? 0)%nat
  | VFun _ | VElem _ | VEvent _ | VObj _ => true
  end.

Inductive exn : Type :=
  | NotCallable (v : jsval)        (* TypeError: v is not a function *)
  | NullAccess (prop : string)     (* TypeError: cannot read a property of null *)
  | Thrown (v : jsval).            (* thrown by a caller-supplied function *)

Inductive completion : Type :=
  | Return (v : jsval)
  | Throw (v : jsval).

Fixpoint assoc (k : string) (fields : list (string * jsval)) : jsval :=
  match fields with
  | [] => VUndefined
  | (k', v) :: rest => if String.eqb k k' then v else assoc k rest
  end.

(** [o.k] for the values [options] can be in the ['object'] case of the
    switch.  Elements and events carry none of the four option names. *)
Definition get_prop (o : jsval) (k : string) : jsval + exn :=
  match o with
  | VObj fields => inl (assoc k fields)
  | VNull | VUndefined => inr (NullAccess k)
  | _ => inl VUndefined
  end.

(** ** Configuration: lines 67-92 *)

Record config : Type := Config {
  callback : jsval;
  cancelOnMove : jsval;
  onlyIf : jsval;
  touchDelay : jsval
}.

Definition default_config (cb : jsval) : config :=
  {| callback := cb;
     cancelOnMove := VBool true;
     onlyIf := VFun FnConstTrue;
     touchDelay := VNum 0 |}.

(** [if (typeof options.x != 'undefined') x = options.x] *)
Definition override (dflt v : jsval) : jsval :=
  if is_undefined v then dflt else v.

Definition read_options (options : jsval) : config + exn :=
  match typeof options with
  | TFunction => inl (default_config options)
  | TObject =>
      match get_prop options "callback",
            get_prop options "cancelOnMove",
            get_prop options "onlyIf",
            get_prop options "touchDelay" with
      | inl cb, inl com, inl oi, inl td =>
          inl {| callback := cb;
                 cancelOnMove := override (VBool true) com;
                 onlyIf := override (VFun FnConstTrue) oi;
                 touchDelay := override (VNum 0) td |}
      | inr e, _, _, _ | _, inr e, _, _ | _, _, inr e, _ | _, _, _, inr e =>
          inr e
      end
  | _ => inl (default_config VUndefined)
  end.

(** ** Bindings: lines 100-157 *)

(** The five function literals passed to [this.bind]. *)
Inductive handler : Type :=
  | OnTouchStart      (* lines 101-120 *)
  | OnTouchEnd        (* lines 122-135 *)
  | OnClickPrevent    (* lines 137-139 *)
  | OnTouchMove       (* lines 142-147 *)
  | OnClickFallback.  (* lines 150-154 *)

Definition bound_handlers (touchSupported : bool) (cfg : config)
  : list (string * handler) :=
  if touchSupported then
    [("touchstart", OnTouchStart); ("touchend", OnTouchEnd);
     ("click", OnClickPrevent)]
    ++ (if truthy (cancelOnMove cfg) then [("touchmove", OnTouchMove)] else [])
  else if is_function (callback cfg) then [("click", OnClickFallback)]
  else [].

Record binding : Type := Binding {
  b_elems : list nat;
  b_cfg : config;
  b_handlers : list (string * handler)
}.

(** [$.fn.tappable]: [this] is the collection of elements; the collection
    is returned unchanged, here as [b_elems]. *)
Definition tappable (touchSupported : bool) (options : jsval)
    (this : list nat) : binding + exn :=
  match read_options options with
  | inl cfg =>
      inl {| b_elems := this; b_cfg := cfg;
             b_handlers := bound_handlers touchSupported cfg |}
  | inr e => inr e
  end.

(** ** The world *)

(** A pending [setTimeout] callback: the closure of lines 110-116 with the
    [el] and [event] it captured, and the delay it was scheduled with. *)
Record timer : Type := Timer {
  t_el : nat;
  t_event : nat;
  t_delay : jsval
}.

(** One execution of [callback.call(thisArg, arg...)]. *)
Record call : Type := Call {
  call_this : jsval;
  call_args : list jsval
}.

Definition on_elem (el : nat) (c : call) : bool :=
  match call_this c with
  | VElem el' => Nat.eqb el el'
  | _ => false
  end.

(** The class attribute of every element, the timeouts that are queued
    (newest first) with the handle the next one gets, the log of action
    invocations, the events whose default was prevented, and the
    application state. *)
Record world (Env : Type) : Type := World {
  w_classes : nat -> gset string;
  w_timers : list (nat * timer);
  w_next : nat;
  w_calls : list call;
  w_prevented : list nat;
  w_env : Env
}.
Arguments World {Env}.
Arguments w_classes {Env}.
Arguments w_timers {Env}.
Arguments w_next {Env}.
Arguments w_calls {Env}.
Arguments w_prevented {Env}.
Arguments w_env {Env}.

(** The tasks of the host.  [Dispatch type el ev] runs the handlers bound
    on [el] for events of [type] with the event object [ev]: [el] is the
    element the event is delivered to (the handlers' [this]), be it the
    event's own target or a bound ancestor of it.  [Timeout id] runs a
    queued timeout closure, [Extern e] is the application changing its
    state. *)
Inductive label {Env : Type} : Type :=
  | Dispatch (type : string) (el : nat) (ev : nat)
  | Timeout (id : nat)
  | Extern (e : Env).
Arguments label : clear implicits.

Definition is_touchstart_on {Env} (el : nat) (l : label Env) : bool :=
  match l with
  | Dispatch ty el' _ => String.eqb ty "touchstart" && Nat.eqb el el'
  | _ => false
  end.

(** ** A sample page

    One button, element 7.  The application state is whether the button is
    enabled; function 0 is an action, function 1 a guard that answers the
    flag.  Three ways of making the button tappable, and some traces. *)

Definition demo_fn (id : nat) (this : jsval) (args : list jsval)
    (enabled : bool) : bool * completion :=
  match id with
  | 1 => (enabled, Return (VBool enabled))
  | _ => (enabled, Return VUndefined)
  end.

Definition button : nat := 7.

Definition touch_handlers : list (string * handler) :=
  [("touchstart", OnTouchStart); ("touchend", OnTouchEnd);
   ("click", OnClickPrevent); ("touchmove", OnTouchMove)].

(** [$(button).tappable({callback: f0, onlyIf: f1, touchDelay: 150})] *)
Definition guarded_options : jsval :=
  VObj [("callback", VFun (FnUser 0)); ("onlyIf", VFun (FnUser 1));
        ("touchDelay", VNum 150)].

Definition guarded_binding : binding :=
  {| b_elems := [button];
     b_cfg := {| callback := VFun (FnUser 0); cancelOnMove := VBool true;
                 onlyIf := VFun (FnUser 1); touchDelay := VNum 150 |};
     b_handlers := touch_handlers |}.

(** [$(button).tappable(f0)] *)
Definition plain_binding : binding :=
  {| b_elems := [button];
     b_cfg := default_config (VFun (FnUser 0));
     b_handlers := touch_handlers |}.

(** [$(button).tappable({callback: 'save', touchDelay: 150})] *)
Definition broken_options : jsval :=
  VObj [("callback", VStr "save"); ("touchDelay", VNum 150)].

Definition broken_binding : binding :=
  {| b_elems := [button];
     b_cfg := {| callback := VStr "save"; cancelOnMove := VBool true;
                 onlyIf := VFun FnConstTrue; touchDelay := VNum 150 |};
     b_handlers := touch_handlers |}.

(** The page as loaded: no classes, nothing queued, the button enabled. *)
Definition fresh_page : world bool :=
  {| w_classes := fun _ => ∅; w_timers := []; w_next := 0;
     w_calls := []; w_prevented := []; w_env := true |}.

(** A touch that is cancelled by moving: timeout 0 stays queued. *)
Definition cancelled_touch : list (label bool) :=
  [Dispatch "touchstart" button 1; Dispatch "touchmove" button 2].

(** A quick tap after it: touch-start (queues timeout 1) and touch-end. *)
Definition quick_tap : list (label bool) :=
  [Dispatch "touchstart" button 3; Dispatch "touchend" button 4].

(** [$(button).tappable(f0)] where touch events are not supported. *)
Definition desktop_binding : binding :=
  {| b_elems := [button];
     b_cfg := default_config (VFun (FnUser 0));
     b_handlers := [("click", OnClickFallback)] |}.

(** [$(button).tappable()] where touch events are not supported. *)
Definition inert_binding : binding :=
  {| b_elems := [button];
     b_cfg := default_config VUndefined;
     b_handlers := [] |}.

(** [$(button).tappable({callback: f0, cancelOnMove: false})] *)
Definition steady_options : jsval :=
  VObj [("callback", VFun (FnUser 0)); ("cancelOnMove", VBool false)].

Definition steady_binding : binding :=
  {| b_elems := [button];
     b_cfg := {| callback := VFun (FnUser 0); cancelOnMove := VBool false;
                 onlyIf := VFun FnConstTrue; touchDelay := VNum 0 |};
     b_handlers := [("touchstart", OnTouchStart); ("touchend", OnTouchEnd);
                    ("click", OnClickPrevent)] |}.

(** [$(button).tappable({callback: f0, onlyIf: true})] *)
Definition misguarded_options : jsval :=
  VObj [("callback", VFun (FnUser 0)); ("onlyIf", VBool true)].

Definition misguarded_binding : binding :=
  {| b_elems := [button];
     b_cfg := {| callback := VFun (FnUser 0); cancelOnMove := VBool true;
                 onlyIf := VBool true; touchDelay := VNum 0 |};
     b_handlers := touch_handlers |}.

(** The page with a style class on every element. *)
Definition styled_page : world bool :=
  {| w_classes := fun _ => {["btn"]}; w_timers := []; w_next := 0;
     w_calls := []; w_prevented := []; w_env := true |}.

(** A tap with the finger moving in between, and its timeout. *)
Definition wobbly_tap : list (label bool) :=
  [Dispatch "touchstart" button 1; Dispatch "touchmove" button 2;
   Dispatch "touchend" button 3; Timeout 0].

Section Tappable.

Variable Env : Type.

(** What a caller-supplied function does when called with a receiver and
    arguments in an application state. *)
Variable user_fn : nat -> jsval -> list jsval -> Env -> Env * completion.

Definition set_classes (f : nat -> gset string) (w : world Env) : world Env :=
  {| w_classes := f; w_timers := w_timers w; w_next := w_next w;
     w_calls := w_calls w; w_prevented := w_prevented w; w_env := w_env w |}.

Definition set_env (e : Env) (w : world Env) : world Env :=
  {| w_classes := w_classes w; w_timers := w_timers w; w_next := w_next w;
     w_calls := w_calls w; w_prevented := w_prevented w; w_env := e |}.

Definition set_timers (ts : list (nat * timer)) (w : world Env) : world Env :=
  {| w_classes := w_classes w; w_timers := ts; w_next := w_next w;
     w_calls := w_calls w; w_prevented := w_prevented w; w_env := w_env w |}.

Definition calls_on (el : nat) (w : world Env) : list call :=
  filter (fun c => on_elem el c = true) (w_calls w).

Definition pending_for (el : nat) (w : world Env) : list (nat * timer) :=
  filter (fun p => t_el (snd p) = el) (w_timers w).

(** *** The handler monad: state, plus an exception that keeps the state *)

Definition M (A : Type) : Type := world Env -> world Env * (A + exn).

Definition ret {A} (a : A) : M A := fun w => (w, inl a).

Definition bind {A B} (m : M A) (k : A -> M B) : M B :=
  fun w =>
    match m w with
    | (w', inl a) => k a w'
    | (w', inr e) => (w', inr e)
    end.

Notation "'let*' x := m 'in' k" := (bind m (fun x => k))
  (at level 10, x name, m at level 100, k at level 200, only parsing).
Notation "m >> k" := (bind m (fun _ => k))
  (at level 100, k at level 200, right associativity, only parsing).

(** *** jQuery class manipulation on one element *)

Definition hasClass (el : nat) (c : string) : M bool :=
  fun w => (w, inl (bool_decide (c ∈ w_classes w el))).

Definition addClass (el : nat) (c : string) : M unit :=
  fun w => (set_classes (<[el := {[c]} ∪ w_classes w el]> (w_classes w)) w,
            inl tt).

Definition removeClass (el : nat) (c : string) : M unit :=
  fun w => (set_classes (<[el := w_classes w el ∖ {[c]}]> (w_classes w)) w,
            inl tt).

(** *** Calls *)

Definition apply_fn (f : fn) (this : jsval) (args : list jsval) (e : Env)
  : Env * completion :=
  match f with
  | FnUser id => user_fn id this args e
  | FnConstTrue => (e, Return (VBool true))
  end.

(** [f.call(this, args...)] for an arbitrary value [f]. *)
Definition call_value (f this : jsval) (args : list jsval) : M jsval :=
  fun w =>
    match f with
    | VFun g =>
        match apply_fn g this args (w_env w) with
        | (e', Return v) => (set_env e' w, inl v)
        | (e', Throw v) => (set_env e' w, inr (Thrown v))
        end
    | _ => (w, inr (NotCallable f))
    end.

(** [onlyIf(el)]: a plain call, the element is the argument. *)
Definition call_onlyIf (cfg : config) (el : nat) : M bool :=
  let* v := call_value (onlyIf cfg) VUndefined [VElem el] in
  ret (truthy v).

(** The log records that [callback.call(thisArg, arg)] entered the
    function. *)
Definition log_call (c : call) : M unit :=
  fun w =>
    ({| w_classes := w_classes w; w_timers := w_timers w;
        w_next := w_next w; w_calls := w_calls w ++ [c];
        w_prevented := w_prevented w; w_env := w_env w |}, inl tt).

(** [callback.call(el, event)]: a TypeError if [callback] is not a
    function, else the function is entered with [el] as receiver and
    [event] as its argument. *)
Definition call_callback (cfg : config) (el ev : nat) : M unit :=
  if is_function (callback cfg) then
    log_call (Call (VElem el) [VEvent ev]) >>
    call_value (callback cfg) (VElem el) [VEvent ev] >>
    ret tt
  else fun w => (w, inr (NotCallable (callback cfg))).

(** [window.setTimeout(closure, touchDelay)] *)
Definition setTimeout (t : timer) : M nat :=
  fun w =>
    ({| w_classes := w_classes w;
        w_timers := (w_next w, t) :: w_timers w;
        w_next := S (w_next w);
        w_calls := w_calls w; w_prevented := w_prevented w;
        w_env := w_env w |}, inl (w_next w)).

(** [event.preventDefault()] *)
Definition preventDefault (ev : nat) : M unit :=
  fun w =>
    ({| w_classes := w_classes w; w_timers := w_timers w;
        w_next := w_next w; w_calls := w_calls w;
        w_prevented := w_prevented w ++ [ev]; w_env := w_env w |}, inl tt).

(** *** The source functions *)

(** Lines 94-98. *)
Definition fireCallback (cfg : config) (el ev : nat) : M unit :=
  if is_function (callback cfg) then
    let* g := call_onlyIf cfg el in
    if g then call_callback cfg el ev else ret tt
  else ret tt.

(** Lines 110-116: the function given to [setTimeout]. *)
Definition timer_callback (cfg : config) (t : timer) : M unit :=
  let* ended := hasClass (t_el t) "touch-ended" in
  if ended then fireCallback cfg (t_el t) (t_event t)
  else
    let* started := hasClass (t_el t) "touch-started" in
    if started then addClass (t_el t) "touched" else ret tt.

(** Lines 101-120.  The handler's [return true] has no effect in jQuery. *)
Definition on_touchstart (cfg : config) (el ev : nat) : M unit :=
  let* g := call_onlyIf cfg el in
  if g then
    removeClass el "touched" >>
    removeClass el "touch-ended" >>
    addClass el "touch-started" >>
    setTimeout (Timer el ev (touchDelay cfg)) >>
    ret tt
  else ret tt.

(** Lines 122-135. *)
Definition on_touchend (cfg : config) (el ev : nat) : M unit :=
  let* touched := hasClass el "touched" in
  if touched then
    removeClass el "touched" >>
    fireCallback cfg el ev
  else
    let* started := hasClass el "touch-started" in
    if started then
      removeClass el "touch-started" >>
      addClass el "touch-ended"
    else ret tt.

(** Lines 137-139. *)
Definition on_click_prevent (ev : nat) : M unit := preventDefault ev.

(** Lines 142-147. *)
Definition on_touchmove (el : nat) : M unit :=
  removeClass el "touched" >>
  removeClass el "touch-started" >>
  removeClass el "touch-ended".

(** Lines 150-154. *)
Definition on_click_fallback (cfg : config) (el ev : nat) : M unit :=
  let* g := call_onlyIf cfg el in
  if g then call_callback cfg el ev else ret tt.

Definition run_handler (cfg : config) (h : handler) (el ev : nat) : M unit :=
  match h with
  | OnTouchStart => on_touchstart cfg el ev
  | OnTouchEnd => on_touchend cfg el ev
  | OnClickPrevent => on_click_prevent ev
  | OnTouchMove => on_touchmove el
  | OnClickFallback => on_click_fallback cfg el ev
  end.

(** *** The event loop *)

(** jQuery runs the handlers bound for the event type in binding order; an
    exception leaves the remaining ones unrun. *)
Fixpoint run_handlers (cfg : config) (hs : list (string * handler))
    (type : string) (el ev : nat) : M unit :=
  match hs with
  | [] => ret tt
  | (ty, h) :: rest =>
      if String.eqb type ty then
        run_handler cfg h el ev >> run_handlers cfg rest type el ev
      else run_handlers cfg rest type el ev
  end.

Fixpoint take_timer (id : nat) (ts : list (nat * timer))
  : option (timer * list (nat * timer)) :=
  match ts with
  | [] => None
  | (id', t) :: rest =>
      if Nat.eqb id id' then Some (t, rest)
      else
        match take_timer id rest with
        | Some (t', rest') => Some (t', (id', t) :: rest')
        | None => None
        end
  end.

Definition outcome {A} (r : world Env * (A + exn)) : world Env * option exn :=
  match r with
  | (w, inl _) => (w, None)
  | (w, inr e) => (w, Some e)
  end.

(** One task of the host: the resulting world and the exception that
    reached the host, if any.  A label naming an element outside the
    collection, or a timeout that is not pending, does nothing. *)
Definition step (b : binding) (w : world Env) (l : label Env)
  : world Env * option exn :=
  match l with
  | Dispatch type el ev =>
      if bool_decide (el ∈ b_elems b) then
        outcome (run_handlers (b_cfg b) (b_handlers b) type el ev w)
      else (w, None)
  | Timeout id =>
      match take_timer id (w_timers w) with
      | Some (t, rest) =>
          outcome (timer_callback (b_cfg b) t (set_timers rest w))
      | None => (w, None)
      end
  | Extern e => (set_env e w, None)
  end.

Fixpoint exec (b : binding) (w : world Env) (tr : list (label Env))
  : world Env * list exn :=
  match tr with
  | [] => (w, [])
  | l :: tr' =>
      let '(w1, r) := step b w l in
      let '(w2, es) := exec b w1 tr' in
      (w2, option_list r ++ es)
  end.

Definition run (b : binding) (w : world Env) (tr : list (label Env)) : world Env :=
  fst (exec b w tr).

(** *** Vocabulary of the properties *)

(** What [onlyIf(el)] answers in application state [e]: [Some] of the
    truthiness of the returned value, [None] when the guard is not callable
    or throws. *)
Definition guard_value (cfg : config) (el : nat) (e : Env) : option bool :=
  match onlyIf cfg with
  | VFun g =>
      match apply_fn g VUndefined [VElem el] e with
      | (_, Return v) => Some (truthy v)
      | (_, Throw _) => None
      end
  | _ => None
  end.

(** The application state the guard leaves behind. *)
Definition guard_env (cfg : config) (el : nat) (e : Env) : Env :=
  match onlyIf cfg with
  | VFun g => fst (apply_fn g VUndefined [VElem el] e)
  | _ => e
  end.

Definition guard_always_true (cfg : config) : Prop :=
  forall el e, guard_value cfg el e = Some true.

(** The phase markers of an element. *)
Definition pending (s : gset string) : Prop := "touch-started" ∈ s.
Definition active (s : gset string) : Prop := "touched" ∈ s.
Definition ended_early (s : gset string) : Prop := "touch-ended" ∈ s.
Definition idle (s : gset string) : Prop :=
  ~ pending s /\ ~ active s /\ ~ ended_early s.

(** Everything of the world but the log and the application state. *)
Definition same_page (w w' : world Env) : Prop :=
  w_classes w' = w_classes w /\ w_timers w' = w_timers w /\
  w_next w' = w_next w /\ w_prevented w' = w_prevented w.

(** ENDED_EARLY excludes the two other markers. *)
Definition exclusive (s : gset string) : Prop :=
  ended_early s -> ~ pending s /\ ~ active s.

(** The number of action invocations with [el] as receiver so far. *)
Definition invoked (el : nat) (w : world Env) : nat := length (calls_on el w).

(** What can still lead to an invocation on [el] without a further
    touch-start: the highlight, and each timeout queued for [el]. *)
Definition lit (el : nat) (w : world Env) : nat :=
  if bool_decide ("touched" ∈ w_classes w el) then 1 else 0.

Definition budget (el : nat) (w : world Env) : nat :=
  lit el w + length (pending_for el w).

Definition touchstarts_on (el : nat) (tr : list (label Env)) : nat :=
  length (filter (fun l => is_touchstart_on el l = true) tr).

(** How a handler may change the world, as the lemmas below state it. *)
Definition others_kept (el : nat) (w w' : world Env) : Prop :=
  forall el', el' <> el -> w_classes w' el' = w_classes w el'.

Definition queue_kept (w w' : world Env) : Prop :=
  w_timers w' = w_timers w /\ w_next w' = w_next w /\
  w_prevented w' = w_prevented w.

Definition log_grows (cfg : config) (el ev : nat) (w w' : world Env) : Prop :=
  w_calls w' = w_calls w \/
  (w_calls w' = w_calls w ++ [Call (VElem el) [VEvent ev]] /\
   is_function (callback cfg) = true /\
   guard_value cfg el (w_env w) = Some true).

(** A binding made on a touch-capable platform. *)
Definition touch_binding (b : binding) : Prop :=
  b_handlers b = bound_handlers true (b_cfg b).

Definition all_exclusive (w : world Env) : Prop :=
  forall x, exclusive (w_classes w x).

(** The binding with another value as [callback]. *)
Definition with_callback (cb : jsval) (b : binding) : binding :=
  {| b_elems := b_elems b;
     b_cfg := {| callback := cb;
                 cancelOnMove := cancelOnMove (b_cfg b);
                 onlyIf := onlyIf (b_cfg b);
                 touchDelay := touchDelay (b_cfg b) |};
     b_handlers := b_handlers b |}.

Definition user_raised (e : exn) : Prop := exists v, e = Thrown v.

(** A handler the binder can have bound under this configuration. *)
Definition bindable (cfg : config) (h : handler) : Prop :=
  h = OnClickFallback -> is_function (callback cfg) = true.

(** The class sets a touch-end on [el] and a timeout callback for [el]
    leave behind, as functions of the class sets they find. *)
Definition touchend_classes (el : nat) (f : nat -> gset string)
  : nat -> gset string :=
  if bool_decide ("touched" ∈ f el) then <[el := f el ∖ {["touched"]}]> f
  else if bool_decide ("touch-started" ∈ f el) then
    <[el := {["touch-ended"]} ∪ (f el ∖ {["touch-started"]})]>
      (<[el := f el ∖ {["touch-started"]}]> f)
  else f.

Definition timeout_classes (el : nat) (f : nat -> gset string)
  : nat -> gset string :=
  if bool_decide ("touch-ended" ∈ f el) then f
  else if bool_decide ("touch-started" ∈ f el) then
    <[el := {["touched"]} ∪ f el]> f
  else f.

(** *** Vocabulary of the further properties *)

(** A binding made on a platform without touch support. *)
Definition fallback_binding (b : binding) : Prop :=
  b_handlers b = bound_handlers false (b_cfg b).

Definition is_dispatch (l : label Env) : bool :=
  match l with Dispatch _ _ _ => true | _ => false end.

Definition is_touchmove (l : label Env) : bool :=
  match l with
  | Dispatch ty _ _ => String.eqb ty "touchmove"
  | _ => false
  end.

Definition without_touchmoves (tr : list (label Env)) : list (label Env) :=
  filter (fun l => is_touchmove l = false) tr.

(** The element a task works on: the bound element whose handlers are run
    (their [this], not necessarily the event's own target), or the element
    captured by the timeout closure that is run. *)
Definition acts_on (w : world Env) (l : label Env) : option nat :=
  match l with
  | Dispatch _ el _ => Some el
  | Timeout id =>
      match take_timer id (w_timers w) with
      | Some (t, _) => Some (t_el t)
      | None => None
      end
  | Extern _ => None
  end.

(** A class name that is none of the three markers. *)
Definition foreign (c : string) : Prop :=
  c <> "touched" /\ c <> "touch-started" /\ c <> "touch-ended".

Definition class_kept (c : string) (w w' : world Env) : Prop :=
  forall x, c ∈ w_classes w' x <-> c ∈ w_classes w x.

(** An invocation as the plugin makes it: an element as receiver, one
    event as the only argument. *)
Definition tap_call (c : call) : Prop :=
  exists el ev, c = Call (VElem el) [VEvent ev].

Definition log_extends (w w' : world Env) : Prop :=
  exists cs, w_calls w' = w_calls w ++ cs /\ Forall tap_call cs.

(** What the handlers for an event on [el], or a timeout closure for [el],
    may leave behind: other elements keep their classes, the timeouts added
    are for [el], the invocations added have [el] as receiver. *)
Definition footprint (el : nat) (w w' : world Env) : Prop :=
  others_kept el w w' /\
  (exists ts, w_timers w' = ts ++ w_timers w /\
              Forall (fun p : nat * timer => t_el (snd p) = el) ts) /\
  (exists cs, w_calls w' = w_calls w ++ cs /\
              Forall (fun c => exists ev, c = Call (VElem el) [VEvent ev]) cs).

(** ** Properties *)

Ltac unfold_m :=
  unfold on_touchstart, on_touchend, on_touchmove, on_click_prevent,
    on_click_fallback, timer_callback, fireCallback, call_callback,
    log_call, call_onlyIf, call_value, setTimeout, preventDefault,
    hasClass, addClass, removeClass, bind, ret in *.

Lemma call_onlyIf_value cfg el w b :
  guard_value cfg el (w_env w) = Some b ->
  call_onlyIf cfg el w = (set_env (guard_env cfg el (w_env w)) w, inl b).
Proof.
  unfold guard_value, guard_env. unfold_m.
  destruct (onlyIf cfg); try discriminate.
  destruct (apply_fn _ _ _ _) as [e' [v|v]]; simpl; congruence.
Qed.

Lemma call_onlyIf_frame cfg el w w' r :
  call_onlyIf cfg el w = (w', r) ->
  same_page w w' /\ w_calls w' = w_calls w /\
  (r = inl true -> guard_value cfg el (w_env w) = Some true).
Proof.
  unfold same_page, guard_value. unfold_m.
  destruct (onlyIf cfg);
    try (destruct (apply_fn _ _ _ _) as [e' [v|v]]);
    intros [= <- <-]; simpl; intuition congruence.
Qed.

Lemma fireCallback_frame cfg el ev w w' r :
  fireCallback cfg el ev w = (w', r) ->
  same_page w w' /\
  (w_calls w' = w_calls w \/
   (w_calls w' = w_calls w ++ [Call (VElem el) [VEvent ev]] /\
    is_function (callback cfg) = true /\
    guard_value cfg el (w_env w) = Some true)).
Proof.
  unfold fireCallback.
  destruct (is_function (callback cfg)) eqn:Hf;
    [|unfold ret, same_page; intros [= <- <-]; auto].
  unfold bind at 1.
  destruct (call_onlyIf cfg el w) as [w1 r1] eqn:Hg.
  apply call_onlyIf_frame in Hg as ((H1 & H2 & H3 & H4) & Hc & Hv).
  unfold same_page.
  destruct r1 as [[|]|e]; [|unfold ret; intros [= <- <-]; auto..].
  specialize (Hv eq_refl).
  unfold_m. rewrite Hf.
  destruct (callback cfg); try discriminate Hf.
  destruct (apply_fn _ _ _ _) as [e' [v|v]]; intros [= <- <-]; simpl;
    rewrite ?H1, ?H2, ?H3, ?H4, ?Hc; auto 10.
Qed.

Lemma on_touchend_spec cfg el ev w w' r :
  on_touchend cfg el ev w = (w', r) ->
  queue_kept w w' /\ others_kept el w w' /\
  ((active (w_classes w el) /\
    w_classes w' el = w_classes w el ∖ {["touched"]} /\
    log_grows cfg el ev w w') \/
   (~ active (w_classes w el) /\ pending (w_classes w el) /\
    w_classes w' el = {["touch-ended"]} ∪ (w_classes w el ∖ {["touch-started"]}) /\
    w_calls w' = w_calls w /\ w_env w' = w_env w /\ r = inl tt) \/
   (~ active (w_classes w el) /\ ~ pending (w_classes w el) /\
    w' = w /\ r = inl tt)).
Proof.
  unfold on_touchend, active, pending, queue_kept, others_kept, log_grows.
  unfold bind at 1, hasClass at 1. case_bool_decide as Ht.
  - unfold bind at 1, removeClass at 1.
    intros Hf. apply fireCallback_frame in Hf as ((H1 & H2 & H3 & H4) & Hc).
    simpl in *. rewrite H1, H2, H3, H4.
    split_and!; auto.
    + intros el' Hne. rewrite fn_lookup_insert_ne; auto.
    + left. rewrite fn_lookup_insert. intuition.
  - unfold bind at 1, hasClass at 1. case_bool_decide as Hs.
    + unfold_m. intros [= <- <-]. simpl. split_and!; auto.
      * intros el' Hne. rewrite !fn_lookup_insert_ne; auto.
      * right; left. rewrite !fn_lookup_insert. auto 10.
    + unfold ret. intros [= <- <-]. auto 10.
Qed.

Lemma timer_callback_spec cfg t w w' r :
  timer_callback cfg t w = (w', r) ->
  queue_kept w w' /\ others_kept (t_el t) w w' /\
  ((ended_early (w_classes w (t_el t)) /\
    w_classes w' = w_classes w /\
    log_grows cfg (t_el t) (t_event t) w w') \/
   (~ ended_early (w_classes w (t_el t)) /\ pending (w_classes w (t_el t)) /\
    w_classes w' (t_el t) = {["touched"]} ∪ w_classes w (t_el t) /\
    w_calls w' = w_calls w /\ w_env w' = w_env w /\ r = inl tt) \/
   (~ ended_early (w_classes w (t_el t)) /\
    ~ pending (w_classes w (t_el t)) /\
    w' = w /\ r = inl tt)).
Proof.
  unfold timer_callback, ended_early, pending, queue_kept, others_kept,
    log_grows.
  unfold bind at 1, hasClass at 1. case_bool_decide as Ht.
  - intros Hf. apply fireCallback_frame in Hf as ((H1 & H2 & H3 & H4) & Hc).
    rewrite H1, H2, H3, H4. split_and!; auto.
  - unfold bind at 1, hasClass at 1. case_bool_decide as Hs.
    + unfold_m. intros [= <- <-]. simpl. split_and!; auto.
      * intros el' Hne. rewrite !fn_lookup_insert_ne; auto.
      * right; left. rewrite !fn_lookup_insert. auto 10.
    + unfold ret. intros [= <- <-]. auto 10.
Qed.

Lemma on_touchstart_spec cfg el ev w w' r :
  on_touchstart cfg el ev w = (w', r) ->
  others_kept el w w' /\ w_calls w' = w_calls w /\
  w_prevented w' = w_prevented w /\
  ((guard_value cfg el (w_env w) = Some true /\
    w_classes w' el
    = {["touch-started"]}
      ∪ ((w_classes w el ∖ {["touched"]}) ∖ {["touch-ended"]}) /\
    w_timers w' = (w_next w, Timer el ev (touchDelay cfg)) :: w_timers w /\
    w_next w' = S (w_next w) /\ r = inl tt) \/
   (guard_value cfg el (w_env w) <> Some true /\
    w_classes w' = w_classes w /\ w_timers w' = w_timers w /\
    w_next w' = w_next w)).
Proof.
  unfold on_touchstart, others_kept.
  unfold bind at 1.
  destruct (call_onlyIf cfg el w) as [w1 r1] eqn:Hg.
  pose proof (call_onlyIf_frame _ _ _ _ _ Hg) as ((H1 & H2 & H3 & H4) & Hc & Hv).
  destruct r1 as [[|]|e].
  - specialize (Hv eq_refl). unfold_m. intros [= <- <-]. simpl.
    rewrite H1, H2, H3, H4, Hc. split_and!; auto.
    + intros el' Hne. rewrite !fn_lookup_insert_ne; auto.
    + left. rewrite !fn_lookup_insert. auto 10.
  - unfold ret. intros [= <- <-].
    split_and!; [intros ? ?; by rewrite H1 | done | done |].
    right. split_and!; auto.
    intros Hgt. rewrite (call_onlyIf_value _ _ _ _ Hgt) in Hg. congruence.
  - intros [= <- <-].
    split_and!; [intros ? ?; by rewrite H1 | done | done |].
    right. split_and!; auto.
    intros Hgt. rewrite (call_onlyIf_value _ _ _ _ Hgt) in Hg. congruence.
Qed.

Lemma on_touchmove_spec el w :
  on_touchmove el w
  = (set_classes
       (<[el := ((w_classes w el ∖ {["touched"]}) ∖ {["touch-started"]})
                ∖ {["touch-ended"]}]>
          (<[el := (w_classes w el ∖ {["touched"]}) ∖ {["touch-started"]}]>
             (<[el := w_classes w el ∖ {["touched"]}]> (w_classes w)))) w,
     inl tt).
Proof.
  unfold_m. simpl. rewrite !fn_lookup_insert. reflexivity.
Qed.

Lemma on_click_fallback_spec cfg el ev w w' r :
  on_click_fallback cfg el ev w = (w', r) ->
  same_page w w' /\
  (w_calls w' = w_calls w \/
   (w_calls w' = w_calls w ++ [Call (VElem el) [VEvent ev]] /\
    guard_value cfg el (w_env w) = Some true)).
Proof.
  unfold on_click_fallback. unfold bind at 1.
  destruct (call_onlyIf cfg el w) as [w1 r1] eqn:Hg.
  apply call_onlyIf_frame in Hg as ((H1 & H2 & H3 & H4) & Hc & Hv).
  unfold same_page.
  destruct r1 as [[|]|e]; [|unfold ret; intros [= <- <-]; auto..].
  specialize (Hv eq_refl). unfold_m.
  destruct (callback cfg); cbn [is_function typeof];
    try (destruct (apply_fn _ _ _ _) as [e' [v|v]]);
    intros [= <- <-]; simpl; rewrite ?H1, ?H2, ?H3, ?H4, ?Hc; auto 10.
Qed.

Lemma fireCallback_invokes cfg el ev w :
  is_function (callback cfg) = true ->
  guard_value cfg el (w_env w) = Some true ->
  same_page w (fst (fireCallback cfg el ev w)) /\
  w_calls (fst (fireCallback cfg el ev w))
  = w_calls w ++ [Call (VElem el) [VEvent ev]].
Proof.
  intros Hf Hg. unfold fireCallback. rewrite Hf.
  unfold bind. rewrite (call_onlyIf_value _ _ _ _ Hg).
  unfold same_page. unfold_m. rewrite Hf.
  destruct (callback cfg); try discriminate Hf.
  destruct (apply_fn _ _ _ _) as [e' [v|v]]; simpl; auto.
Qed.

Lemma fireCallback_guard_false cfg el ev w :
  guard_value cfg el (w_env w) = Some false ->
  same_page w (fst (fireCallback cfg el ev w)) /\
  w_calls (fst (fireCallback cfg el ev w)) = w_calls w /\
  snd (fireCallback cfg el ev w) = inl tt.
Proof.
  intros Hg. unfold fireCallback, same_page.
  destruct (is_function (callback cfg)); [|unfold ret; simpl; auto 10].
  unfold bind. rewrite (call_onlyIf_value _ _ _ _ Hg).
  unfold ret; simpl; auto 10.
Qed.

Lemma fireCallback_not_callable cfg el ev w :
  is_function (callback cfg) = false ->
  fireCallback cfg el ev w = (w, inl tt).
Proof. intros Hf. unfold fireCallback. by rewrite Hf. Qed.

Lemma timer_callback_ended cfg t w :
  ended_early (w_classes w (t_el t)) ->
  timer_callback cfg t w = fireCallback cfg (t_el t) (t_event t) w.
Proof.
  unfold ended_early. intros He. unfold timer_callback, bind, hasClass.
  by rewrite bool_decide_eq_true_2.
Qed.

Lemma on_touchend_active cfg el ev w :
  active (w_classes w el) ->
  on_touchend cfg el ev w
  = fireCallback cfg el ev
      (set_classes (<[el := w_classes w el ∖ {["touched"]}]> (w_classes w)) w).
Proof.
  unfold active. intros Ha. unfold on_touchend.
  unfold bind at 1, hasClass at 1. rewrite bool_decide_eq_true_2 by done.
  reflexivity.
Qed.

Lemma timer_callback_idle cfg t w :
  ~ pending (w_classes w (t_el t)) ->
  ~ ended_early (w_classes w (t_el t)) ->
  timer_callback cfg t w = (w, inl tt).
Proof.
  unfold pending, ended_early. intros Hp He.
  unfold timer_callback, bind, hasClass, ret.
  rewrite !bool_decide_eq_false_2; auto.
Qed.

Lemma timer_callback_same_element cfg t t' w :
  t_el t' = t_el t ->
  w_classes (fst (timer_callback cfg t' w))
  = w_classes (fst (timer_callback cfg t w)) /\
  map call_this (w_calls (fst (timer_callback cfg t' w)))
  = map call_this (w_calls (fst (timer_callback cfg t w))).
Proof.
  intros Hel. unfold timer_callback, fireCallback. unfold_m. rewrite Hel.
  repeat (case_bool_decide || case_match || simplify_eq/=); auto;
    rewrite ?map_app; auto.
Qed.

(** A timeout callback that runs while its element carries none of the
    three markers is a pure no-op: the world is returned as it was, however
    often the callback is run, and the host task that runs it only removes
    it from the queue.  The callback has no means of telling which
    touch-start queued it: two callbacks for the same element leave the
    same markers and invoke the action on the same receiver the same number
    of times, whatever events they captured. *)
Theorem idle_timeout_noop (cfg : config) (t : timer) (w : world Env) :
  idle (w_classes w (t_el t)) ->
  timer_callback cfg t w = (w, inl tt) /\
  (forall n, Nat.iter n (fun w0 => fst (timer_callback cfg t w0)) w = w) /\
  (forall b id rest,
      b_cfg b = cfg ->
      take_timer id (w_timers w) = Some (t, rest) ->
      step b w (Timeout id) = (set_timers rest w, None)) /\
  (forall t' w0,
      t_el t' = t_el t ->
      w_classes (fst (timer_callback cfg t' w0))
      = w_classes (fst (timer_callback cfg t w0)) /\
      map call_this (w_calls (fst (timer_callback cfg t' w0)))
      = map call_this (w_calls (fst (timer_callback cfg t w0)))).
Proof.
  intros (Hp & _ & He).
  pose proof (timer_callback_idle cfg t w Hp He) as Hnoop.
  split_and!.
  - exact Hnoop.
  - induction n as [|n IH]; simpl; [done|]. rewrite IH, Hnoop. done.
  - intros b id rest <- Htake. unfold step. rewrite Htake.
    rewrite timer_callback_idle; auto.
  - intros t' w0 Hel. by apply timer_callback_same_element.
Qed.

(** A guard-passing touch-start: the element becomes pending, not
    highlighted, and one timeout is queued under the next handle. *)
Lemma touchstart_passes cfg el ev w :
  guard_value cfg el (w_env w) = Some true ->
  let w1 := fst (on_touchstart cfg el ev w) in
  pending (w_classes w1 el) /\ ~ active (w_classes w1 el) /\
  ~ ended_early (w_classes w1 el) /\
  w_timers w1 = (w_next w, Timer el ev (touchDelay cfg)) :: w_timers w /\
  w_next w1 = S (w_next w) /\
  w_calls w1 = w_calls w /\ w_prevented w1 = w_prevented w /\
  others_kept el w w1.
Proof.
  intros Hg w1. subst w1.
  destruct (on_touchstart cfg el ev w) as [w1 r] eqn:Hs. simpl.
  apply on_touchstart_spec in Hs as (Ho & Hc & Hp & [H|H]).
  - destruct H as (_ & Hcl & Ht & Hn & _).
    unfold pending, active, ended_early. rewrite Hcl.
    split_and!; auto; set_solver.
  - by destruct H as [H _].
Qed.

(** C3 (amended).  When the timeout callback runs while its element
    carries the ['touch-ended'] marker, it invokes the action, with the
    element as receiver and the captured touch-start event as argument, if
    the action is callable and [onlyIf(el)] is true at that moment, and does
    not invoke it if [onlyIf(el)] is false.  Either way the class sets are
    left as they were: ['touch-ended'] stays set.  It is removed by the
    next touch-start that passes the guard, and by a touch-move. *)
Theorem C3_ended_early_timer (cfg : config) (t : timer) (w : world Env) :
  ended_early (w_classes w (t_el t)) ->
  let w' := fst (timer_callback cfg t w) in
  w_classes w' = w_classes w /\
  ended_early (w_classes w' (t_el t)) /\
  (is_function (callback cfg) = true ->
   guard_value cfg (t_el t) (w_env w) = Some true ->
   w_calls w' = w_calls w ++ [Call (VElem (t_el t)) [VEvent (t_event t)]]) /\
  (guard_value cfg (t_el t) (w_env w) = Some false ->
   w_calls w' = w_calls w) /\
  (forall ev w0,
      guard_value cfg (t_el t) (w_env w0) = Some true ->
      ~ ended_early
          (w_classes (fst (on_touchstart cfg (t_el t) ev w0)) (t_el t))) /\
  (forall w0,
      ~ ended_early (w_classes (fst (on_touchmove (t_el t) w0)) (t_el t))).
Proof.
  intros He w'. subst w'. rewrite (timer_callback_ended _ _ _ He).
  destruct (fireCallback cfg (t_el t) (t_event t) w) as [w' r] eqn:Hf.
  pose proof (fireCallback_frame _ _ _ _ _ _ Hf) as ((H1 & _) & _).
  simpl. split_and!.
  - done.
  - by rewrite H1.
  - intros Hc Hg.
    pose proof (fireCallback_invokes cfg _ (t_event t) w Hc Hg) as [_ Hl].
    by rewrite Hf in Hl.
  - intros Hg.
    pose proof (fireCallback_guard_false cfg _ (t_event t) w Hg)
      as (_ & Hl & _).
    by rewrite Hf in Hl.
  - intros ev w0 Hg.
    by pose proof (touchstart_passes cfg (t_el t) ev w0 Hg) as (_ & _ & H & _).
  - intros w0. unfold ended_early. rewrite fn_lookup_insert. set_solver.
Qed.

Lemma on_touchend_classes cfg el ev w :
  w_classes (fst (on_touchend cfg el ev w))
  = touchend_classes el (w_classes w).
Proof.
  unfold on_touchend, touchend_classes.
  unfold bind at 1, hasClass at 1. case_bool_decide.
  - unfold bind at 1, removeClass at 1.
    destruct (fireCallback _ _ _ _) as [w' r] eqn:Hf.
    apply fireCallback_frame in Hf as ((Hc & _) & _). simpl. by rewrite Hc.
  - unfold_m. case_bool_decide; simpl; by rewrite ?fn_lookup_insert.
Qed.

Lemma timer_callback_classes cfg t w :
  w_classes (fst (timer_callback cfg t w))
  = timeout_classes (t_el t) (w_classes w).
Proof.
  unfold timer_callback, timeout_classes.
  unfold bind at 1, hasClass at 1. case_bool_decide.
  - destruct (fireCallback _ _ _ _) as [w' r] eqn:Hf.
    apply fireCallback_frame in Hf as ((Hc & _) & _). simpl. by rewrite Hc.
  - unfold_m. by case_bool_decide.
Qed.

(** C7 (amended).  If [onlyIf(el)] is false when a cycle resolves, the
    action is not invoked, and the markers change as the transition changes
    them with a true guard: a touch-end on a highlighted element removes
    ['touched']; the timeout callback on a ['touch-ended'] element removes
    nothing, ['touch-ended'] stays set.  The class sets after either
    transition are a function of the class sets before it alone, whatever
    the guard answers. *)
Theorem C7_guard_reevaluated (cfg : config) (el ev : nat) (t : timer)
    (w : world Env) :
  guard_value cfg el (w_env w) = Some false ->
  t_el t = el ->
  (active (w_classes w el) ->
   let r := on_touchend cfg el ev w in
   w_calls (fst r) = w_calls w /\
   w_classes (fst r) el = w_classes w el ∖ {["touched"]} /\
   ~ active (w_classes (fst r) el) /\
   snd r = inl tt) /\
  (ended_early (w_classes w el) ->
   let r := timer_callback cfg t w in
   w_calls (fst r) = w_calls w /\
   w_classes (fst r) = w_classes w /\
   snd r = inl tt) /\
  (forall w0,
      w_classes (fst (on_touchend cfg el ev w0))
      = touchend_classes el (w_classes w0) /\
      w_classes (fst (timer_callback cfg t w0))
      = timeout_classes el (w_classes w0)).
Proof.
  intros Hg <-. split_and!.
  - intros Ha r. subst r. rewrite (on_touchend_active _ _ _ _ Ha).
    set (w1 := set_classes _ w).
    pose proof (fireCallback_guard_false cfg (t_el t) ev w1 Hg)
      as ((H1 & _) & Hl & Hr).
    rewrite Hl, H1, Hr. subst w1. simpl. rewrite fn_lookup_insert.
    unfold active. split_and!; auto.
    rewrite elem_of_difference, elem_of_singleton. tauto.
  - intros He r. subst r. rewrite (timer_callback_ended _ _ _ He).
    pose proof (fireCallback_guard_false cfg (t_el t) (t_event t) w Hg)
      as ((H1 & _) & Hl & Hr).
    auto.
  - intros w0. split.
    + apply on_touchend_classes.
    + apply timer_callback_classes.
Qed.

(** *** Dispatch under a touch-capable binding *)

Lemma outcome_then_ret {A} (m : M A) (w : world Env) :
  outcome (bind m (fun _ => ret tt) w) = outcome (m w).
Proof. unfold bind, ret. by destruct (m w) as [w' [a|e]]. Qed.

Lemma step_dispatch_touch b ty el ev w :
  touch_binding b -> el ∈ b_elems b ->
  step b w (Dispatch ty el ev)
  = if String.eqb ty "touchstart" then outcome (on_touchstart (b_cfg b) el ev w)
    else if String.eqb ty "touchend" then outcome (on_touchend (b_cfg b) el ev w)
    else if String.eqb ty "click" then outcome (on_click_prevent ev w)
    else if String.eqb ty "touchmove" && truthy (cancelOnMove (b_cfg b))
         then outcome (on_touchmove el w)
    else (w, None).
Proof.
  unfold touch_binding. intros Hb Hel. unfold step.
  rewrite bool_decide_eq_true_2 by done. rewrite Hb.
  unfold bound_handlers.
  destruct (String.eqb ty "touchstart") eqn:E1.
  { apply String.eqb_eq in E1 as ->.
    destruct (truthy _); simpl; first [done | apply outcome_then_ret]. }
  destruct (String.eqb ty "touchend") eqn:E2.
  { apply String.eqb_eq in E2 as ->.
    destruct (truthy _); simpl; first [done | apply outcome_then_ret]. }
  destruct (String.eqb ty "click") eqn:E3.
  { apply String.eqb_eq in E3 as ->.
    destruct (truthy _); simpl; first [done | apply outcome_then_ret]. }
  destruct (truthy _); simpl; rewrite E1, E2, E3; simpl.
  - destruct (String.eqb ty "touchmove"); simpl;
      first [done | apply outcome_then_ret].
  - by rewrite andb_false_r.
Qed.

Lemma run_nil b w : run b w [] = w.
Proof. reflexivity. Qed.

Lemma run_cons b w l tr : run b w (l :: tr) = run b (fst (step b w l)) tr.
Proof.
  unfold run. simpl. destruct (step b w l) as [w1 r]. simpl.
  by destruct (exec b w1 tr).
Qed.

Lemma run_app b w tr1 tr2 : run b w (tr1 ++ tr2) = run b (run b w tr1) tr2.
Proof.
  revert w. induction tr1 as [|l tr1 IH]; intros w; [done|].
  simpl. by rewrite !run_cons, IH.
Qed.

Lemma fst_outcome {A} (r : world Env * (A + exn)) : fst (outcome r) = fst r.
Proof. by destruct r as [w [a|e]]. Qed.

Lemma step_touchstart b el ev w :
  touch_binding b -> el ∈ b_elems b ->
  fst (step b w (Dispatch "touchstart" el ev))
  = fst (on_touchstart (b_cfg b) el ev w).
Proof.
  intros Hb Hel. rewrite step_dispatch_touch by done. simpl.
  apply fst_outcome.
Qed.

Lemma step_touchend b el ev w :
  touch_binding b -> el ∈ b_elems b ->
  fst (step b w (Dispatch "touchend" el ev))
  = fst (on_touchend (b_cfg b) el ev w).
Proof.
  intros Hb Hel. rewrite step_dispatch_touch by done. simpl.
  apply fst_outcome.
Qed.

Lemma step_touchmove b el ev w :
  touch_binding b -> el ∈ b_elems b ->
  truthy (cancelOnMove (b_cfg b)) = true ->
  fst (step b w (Dispatch "touchmove" el ev)) = fst (on_touchmove el w).
Proof.
  intros Hb Hel Hcom. rewrite step_dispatch_touch by done.
  rewrite Hcom. reflexivity.
Qed.

Lemma step_timeout_found b id t rest w :
  take_timer id (w_timers w) = Some (t, rest) ->
  fst (step b w (Timeout id))
  = fst (timer_callback (b_cfg b) t (set_timers rest w)).
Proof. intros Ht. unfold step. rewrite Ht. apply fst_outcome. Qed.

Lemma take_timer_head id t rest : take_timer id ((id, t) :: rest) = Some (t, rest).
Proof. simpl. by rewrite Nat.eqb_refl. Qed.

(** A touch-end on a pending, not highlighted element: the pending marker
    is traded for ['touch-ended']; nothing is called or queued. *)
Lemma touchend_pending cfg el ev w :
  pending (w_classes w el) -> ~ active (w_classes w el) ->
  let w2 := fst (on_touchend cfg el ev w) in
  ended_early (w_classes w2 el) /\ ~ active (w_classes w2 el) /\
  ~ pending (w_classes w2 el) /\
  w_timers w2 = w_timers w /\ w_calls w2 = w_calls w /\
  w_env w2 = w_env w.
Proof.
  intros Hp Ha w2. subst w2.
  destruct (on_touchend cfg el ev w) as [w2 r] eqn:He. simpl.
  apply on_touchend_spec in He as ((Ht & _) & _ & [H|[H|H]]).
  - by destruct H as [H _].
  - destruct H as (_ & _ & Hcl & Hc & Henv & _).
    unfold pending, active, ended_early in *. rewrite Hcl.
    split_and!; auto; set_solver.
  - by destruct H as (_ & H & _).
Qed.

(** The timeout callback on a pending element switches the highlight on. *)
Lemma timeout_pending cfg t w :
  pending (w_classes w (t_el t)) -> ~ ended_early (w_classes w (t_el t)) ->
  let w2 := fst (timer_callback cfg t w) in
  active (w_classes w2 (t_el t)) /\
  w_timers w2 = w_timers w /\ w_calls w2 = w_calls w /\
  w_env w2 = w_env w.
Proof.
  intros Hp He w2. subst w2.
  destruct (timer_callback cfg t w) as [w2 r] eqn:Ht. simpl.
  apply timer_callback_spec in Ht as ((Hq & _) & _ & [H|[H|H]]).
  - by destruct H as [H _].
  - destruct H as (_ & _ & Hcl & Hc & Henv & _).
    unfold active. rewrite Hcl. split_and!; auto; set_solver.
  - by destruct H as (_ & H & _).
Qed.

(** The deferred path: touch-start, touch-end, then the timeout. *)
Lemma deferred_tap (b : binding) (w : world Env) (el ev1 ev2 : nat) :
  touch_binding b -> el ∈ b_elems b ->
  is_function (callback (b_cfg b)) = true ->
  guard_always_true (b_cfg b) ->
  let start := Dispatch "touchstart" el ev1 in
  let finish := Dispatch "touchend" el ev2 in
  let fire := Timeout (w_next w) in
  let w1 := run b w [start] in
  let w2 := run b w [start; finish] in
  let w3 := run b w [start; finish; fire] in
  w_timers w1
  = (w_next w, Timer el ev1 (touchDelay (b_cfg b))) :: w_timers w /\
  ~ active (w_classes w1 el) /\
  ~ active (w_classes w2 el) /\
  ~ active (w_classes w3 el) /\
  w_calls w1 = w_calls w /\
  w_calls w2 = w_calls w /\
  w_calls w3 = w_calls w ++ [Call (VElem el) [VEvent ev1]].
Proof.
  intros Hb Hel Hf Hg. cbv zeta.
  rewrite !run_cons, !run_nil.
  rewrite step_touchstart by done.
  pose proof (touchstart_passes (b_cfg b) el ev1 w (Hg _ _))
    as (Hp1 & Ha1 & He1 & Ht1 & _ & Hc1 & _).
  remember (fst (on_touchstart (b_cfg b) el ev1 w)) as w1 eqn:Hw1.
  rewrite step_touchend by done.
  pose proof (touchend_pending (b_cfg b) el ev2 w1 Hp1 Ha1)
    as (He2 & Ha2 & _ & Ht2 & Hc2 & _).
  remember (fst (on_touchend (b_cfg b) el ev2 w1)) as w2 eqn:Hw2.
  rewrite (step_timeout_found b (w_next w)
             (Timer el ev1 (touchDelay (b_cfg b))) (w_timers w) w2)
    by (rewrite Ht2, Ht1; apply take_timer_head).
  rewrite timer_callback_ended by done. simpl.
  pose proof (fireCallback_invokes (b_cfg b) el ev1
                (set_timers (w_timers w) w2) Hf (Hg _ _)) as ((Hcl & _) & Hl).
  simpl in *. rewrite Hcl, Hl, Hc2, Hc1. auto 10.
Qed.

(** C5.  Under a touch-capable binding with a callable action and a guard
    that always answers true, and whatever delay is configured: a
    touch-start, then a touch-end before the timeout, then the timeout
    queued by the touch-start.  The action is invoked exactly once, by the
    timeout, and the element is not highlighted after any of the three
    tasks. *)
Theorem C5_quick_tap (b : binding) (w : world Env) (el ev1 ev2 : nat) :
  touch_binding b -> el ∈ b_elems b ->
  is_function (callback (b_cfg b)) = true ->
  guard_always_true (b_cfg b) ->
  let start := Dispatch "touchstart" el ev1 in
  let finish := Dispatch "touchend" el ev2 in
  let fire := Timeout (w_next w) in
  let w1 := run b w [start] in
  let w2 := run b w [start; finish] in
  let w3 := run b w [start; finish; fire] in
  w_timers w1
  = (w_next w, Timer el ev1 (touchDelay (b_cfg b))) :: w_timers w /\
  ~ active (w_classes w1 el) /\
  ~ active (w_classes w2 el) /\
  ~ active (w_classes w3 el) /\
  w_calls w1 = w_calls w /\
  w_calls w2 = w_calls w /\
  w_calls w3 = w_calls w ++ [Call (VElem el) [VEvent ev1]].
Proof. apply deferred_tap. Qed.

(** The highlighted path: touch-start, the timeout, then touch-end. *)
Lemma highlighted_tap (b : binding) (w : world Env) (el ev1 ev2 : nat) :
  touch_binding b -> el ∈ b_elems b ->
  is_function (callback (b_cfg b)) = true ->
  guard_always_true (b_cfg b) ->
  let start := Dispatch "touchstart" el ev1 in
  let finish := Dispatch "touchend" el ev2 in
  let fire := Timeout (w_next w) in
  let w2 := run b w [start; fire] in
  let w3 := run b w [start; fire; finish] in
  active (w_classes w2 el) /\
  w_calls w2 = w_calls w /\
  ~ active (w_classes w3 el) /\
  w_calls w3 = w_calls w ++ [Call (VElem el) [VEvent ev2]].
Proof.
  intros Hb Hel Hf Hg. cbv zeta.
  rewrite !run_cons, !run_nil.
  rewrite step_touchstart by done.
  pose proof (touchstart_passes (b_cfg b) el ev1 w (Hg _ _))
    as (Hp1 & Ha1 & He1 & Ht1 & _ & Hc1 & _).
  remember (fst (on_touchstart (b_cfg b) el ev1 w)) as w1 eqn:Hw1.
  rewrite (step_timeout_found b (w_next w)
             (Timer el ev1 (touchDelay (b_cfg b))) (w_timers w) w1)
    by (rewrite Ht1; apply take_timer_head).
  pose proof (timeout_pending (b_cfg b) (Timer el ev1 (touchDelay (b_cfg b)))
                (set_timers (w_timers w) w1) Hp1 He1)
    as (Ha2 & _ & Hc2 & _).
  remember (fst (timer_callback (b_cfg b) _ (set_timers (w_timers w) w1)))
    as w2 eqn:Hw2.
  simpl in Ha2, Hc2.
  rewrite step_touchend by done.
  rewrite (on_touchend_active _ _ _ _ Ha2).
  set (w2' := set_classes _ w2).
  pose proof (fireCallback_invokes (b_cfg b) el ev2 w2' Hf (Hg _ _))
    as ((Hcl & _) & Hl).
  rewrite Hcl, Hl. subst w2'. simpl. rewrite fn_lookup_insert.
  unfold active in *. rewrite Hc2, Hc1. split_and!; auto.
  rewrite elem_of_difference, elem_of_singleton. tauto.
Qed.

Lemma call_callback_applies cfg el ev id w :
  callback cfg = VFun (FnUser id) ->
  w_calls (fst (call_callback cfg el ev w))
  = w_calls w ++ [Call (VElem el) [VEvent ev]] /\
  w_env (fst (call_callback cfg el ev w))
  = fst (user_fn id (VElem el) [VEvent ev] (w_env w)).
Proof.
  intros Hcb. unfold_m. rewrite Hcb. simpl.
  by destruct (user_fn id _ _ _) as [e' [v|v]].
Qed.

(** C10.  With a callable action and a guard that always answers true: on
    the deferred path (touch-end before the timeout) the action is invoked
    with the touch-start event the timeout closure captured; on the
    highlighted path (timeout before touch-end) it is invoked with the
    touch-end event.  In both the receiver is the element and the event is
    the only argument, and the logged invocation is the application of the
    caller's function to exactly that receiver and argument list. *)
Theorem C10_event_passed (b : binding) (w : world Env) (el ev1 ev2 : nat) :
  touch_binding b -> el ∈ b_elems b ->
  is_function (callback (b_cfg b)) = true ->
  guard_always_true (b_cfg b) ->
  let start := Dispatch "touchstart" el ev1 in
  let finish := Dispatch "touchend" el ev2 in
  let fire := Timeout (w_next w) in
  w_calls (run b w [start; finish; fire])
  = w_calls w ++ [Call (VElem el) [VEvent ev1]] /\
  w_calls (run b w [start; fire; finish])
  = w_calls w ++ [Call (VElem el) [VEvent ev2]] /\
  (forall id el' ev' w0,
      callback (b_cfg b) = VFun (FnUser id) ->
      w_calls (fst (call_callback (b_cfg b) el' ev' w0))
      = w_calls w0 ++ [Call (VElem el') [VEvent ev']] /\
      w_env (fst (call_callback (b_cfg b) el' ev' w0))
      = fst (user_fn id (VElem el') [VEvent ev'] (w_env w0))).
Proof.
  intros Hb Hel Hf Hg start finish fire. split_and!.
  - apply (deferred_tap b w el ev1 ev2); auto.
  - apply (highlighted_tap b w el ev1 ev2); auto.
  - intros id el' ev' w0 Hcb. by apply call_callback_applies.
Qed.

(** *** Marker exclusion is an invariant *)

Ltac by_element x el :=
  destruct (decide (x = el)) as [->|?];
  [| match goal with
     | H : others_kept _ _ _ |- _ => rewrite H by done
     end; auto ].

Lemma handler_exclusive cfg h el ev w w' r :
  run_handler cfg h el ev w = (w', r) ->
  all_exclusive w -> all_exclusive w'.
Proof.
  unfold all_exclusive, exclusive, ended_early, pending, active.
  intros Hrun Hinv x. pose proof (Hinv x) as Hx.
  destruct h; simpl in Hrun.
  - apply on_touchstart_spec in Hrun as (Ho & _ & _ & [H|H]).
    + destruct H as (_ & Hcl & _). by_element x el.
      rewrite Hcl. set_solver.
    + destruct H as (_ & -> & _). done.
  - apply on_touchend_spec in Hrun as (_ & Ho & [H|[H|H]]).
    + destruct H as (_ & Hcl & _). by_element x el.
      rewrite Hcl. set_solver.
    + destruct H as (Ha & _ & Hcl & _). by_element x el.
      rewrite Hcl. set_solver.
    + destruct H as (_ & _ & -> & _). done.
  - unfold on_click_prevent, preventDefault in Hrun.
    injection Hrun as <- <-. done.
  - rewrite on_touchmove_spec in Hrun. injection Hrun as <- <-. simpl.
    destruct (decide (x = el)) as [->|Hne].
    + rewrite fn_lookup_insert. set_solver.
    + rewrite !fn_lookup_insert_ne by done. done.
  - apply on_click_fallback_spec in Hrun as ((-> & _) & _). done.
Qed.

Lemma run_handlers_exclusive cfg hs ty el ev w w' r :
  run_handlers cfg hs ty el ev w = (w', r) ->
  all_exclusive w -> all_exclusive w'.
Proof.
  revert w. induction hs as [|[ty' h] hs IH]; intros w; simpl.
  - unfold ret. by intros [= <- <-].
  - destruct (String.eqb ty ty'); [|apply IH].
    unfold bind.
    destruct (run_handler cfg h el ev w) as [w1 [[]|e]] eqn:Hh;
      intros Hrun Hinv.
    + eapply IH; [done|]. eapply handler_exclusive; eauto.
    + injection Hrun as <- <-. eapply handler_exclusive; eauto.
Qed.

Lemma timer_callback_exclusive cfg t w w' r :
  timer_callback cfg t w = (w', r) ->
  all_exclusive w -> all_exclusive w'.
Proof.
  unfold all_exclusive, exclusive, ended_early, pending, active.
  intros Hrun Hinv x. pose proof (Hinv x) as Hx.
  apply timer_callback_spec in Hrun as (_ & Ho & [H|[H|H]]).
  - destruct H as (_ & -> & _). done.
  - destruct H as (He & _ & Hcl & _). by_element x (t_el t).
    rewrite Hcl. unfold ended_early in He. set_solver.
  - destruct H as (_ & _ & -> & _). done.
Qed.

Lemma step_exclusive b w l :
  all_exclusive w -> all_exclusive (fst (step b w l)).
Proof.
  intros Hinv. destruct l as [ty el ev|id|e]; simpl.
  - case_bool_decide; [|done].
    destruct (run_handlers _ _ _ _ _ _) as [w' r] eqn:Hrun.
    rewrite fst_outcome. simpl. eapply run_handlers_exclusive; eauto.
  - destruct (take_timer id (w_timers w)) as [[t rest]|]; [|done].
    destruct (timer_callback _ _ _) as [w' r] eqn:Hrun.
    rewrite fst_outcome. simpl. eapply timer_callback_exclusive; eauto.
  - done.
Qed.

Lemma run_exclusive b w tr :
  all_exclusive w -> all_exclusive (run b w tr).
Proof.
  revert w. induction tr as [|l tr IH]; intros w Hinv; [done|].
  rewrite run_cons. apply IH. by apply step_exclusive.
Qed.

(** C4 (amended).  From a world in which no element carries
    ['touch-ended'] together with ['touch-started'] or ['touched'] (in
    particular from one without markers), every world reached by events,
    timeouts and application steps is again such a world: ENDED_EARLY
    excludes PENDING and excludes ACTIVE.  PENDING and ACTIVE are not
    exclusive: the timeout callback that highlights a pending element
    leaves ['touch-started'] set next to ['touched']. *)
Theorem C4_ended_early_exclusive (b : binding) (w : world Env)
    (tr : list (label Env)) :
  (forall x, exclusive (w_classes w x)) ->
  (forall x,
      ~ (active (w_classes (run b w tr) x) /\
         ended_early (w_classes (run b w tr) x)) /\
      ~ (pending (w_classes (run b w tr) x) /\
         ended_early (w_classes (run b w tr) x))) /\
  (forall t w0,
      pending (w_classes w0 (t_el t)) ->
      ~ ended_early (w_classes w0 (t_el t)) ->
      pending (w_classes (fst (timer_callback (b_cfg b) t w0)) (t_el t)) /\
      active (w_classes (fst (timer_callback (b_cfg b) t w0)) (t_el t))).
Proof.
  intros Hinv. split.
  - intros x. pose proof (run_exclusive b w tr Hinv x) as Hx.
    unfold exclusive in Hx. tauto.
  - intros t w0 Hp He.
    rewrite timer_callback_classes. unfold timeout_classes.
    unfold pending, active, ended_early in *.
    rewrite bool_decide_eq_false_2, bool_decide_eq_true_2 by done.
    rewrite fn_lookup_insert. set_solver.
Qed.

(** *** Counting invocations *)

Lemma invoked_same el w w' : w_calls w' = w_calls w -> invoked el w' = invoked el w.
Proof. unfold invoked, calls_on. by intros ->. Qed.

Lemma invoked_push el el0 ev w w' :
  w_calls w' = w_calls w ++ [Call (VElem el0) [VEvent ev]] ->
  invoked el w' = invoked el w + (if decide (el0 = el) then 1 else 0).
Proof.
  unfold invoked, calls_on. intros ->.
  rewrite list.filter_app, length_app. f_equal.
  rewrite filter_cons, filter_nil. unfold on_elem. simpl.
  destruct (decide (el0 = el)) as [->|Hne].
  - rewrite Nat.eqb_refl. by rewrite decide_True.
  - rewrite decide_False; [done|].
    rewrite Nat.eqb_eq. congruence.
Qed.

Lemma invoked_grows cfg el el0 ev w w' :
  log_grows cfg el0 ev w w' ->
  invoked el w <= invoked el w' <=
    invoked el w + (if decide (el0 = el) then 1 else 0).
Proof.
  intros [Hc|[Hc _]].
  - rewrite (invoked_same _ _ _ Hc). lia.
  - rewrite (invoked_push _ _ _ _ _ Hc). lia.
Qed.

Lemma lit_same el w w' : w_classes w' el = w_classes w el -> lit el w' = lit el w.
Proof. unfold lit. by intros ->. Qed.

Lemma lit_le_1 el w : lit el w <= 1.
Proof. unfold lit. case_bool_decide; lia. Qed.

Lemma lit_active el w : active (w_classes w el) -> lit el w = 1.
Proof. unfold lit, active. intros. by rewrite bool_decide_eq_true_2. Qed.

Lemma lit_not_active el w : ~ active (w_classes w el) -> lit el w = 0.
Proof. unfold lit, active. intros. by rewrite bool_decide_eq_false_2. Qed.

Lemma queued_same el w w' :
  w_timers w' = w_timers w -> length (pending_for el w') = length (pending_for el w).
Proof. unfold pending_for. by intros ->. Qed.

Lemma take_timer_queued el id ts t rest :
  take_timer id ts = Some (t, rest) ->
  length (filter (fun p : nat * timer => t_el (snd p) = el) ts)
  = length (filter (fun p : nat * timer => t_el (snd p) = el) rest)
    + (if decide (t_el t = el) then 1 else 0).
Proof.
  revert rest. induction ts as [|[id' t'] ts IH]; intros rest; simpl; [done|].
  destruct (Nat.eqb id id').
  - intros [= -> ->]. rewrite filter_cons. simpl.
    destruct (decide (t_el t = el)); simpl; lia.
  - destruct (take_timer id ts) as [[t1 rest1]|]; [|done].
    intros [= -> <-]. specialize (IH _ eq_refl).
    rewrite !filter_cons. simpl.
    destruct (decide (t_el t' = el)); simpl; lia.
Qed.

Lemma on_touchend_budget cfg el0 ev w el :
  invoked el (fst (on_touchend cfg el0 ev w))
  + budget el (fst (on_touchend cfg el0 ev w))
  <= invoked el w + budget el w.
Proof.
  destruct (on_touchend cfg el0 ev w) as [w' r] eqn:Hrun. simpl.
  apply on_touchend_spec in Hrun as ((Ht & _) & Ho & [H|[H|H]]).
  - destruct H as (Ha & Hcl & Hl).
    pose proof (invoked_grows _ el _ _ _ _ Hl) as Hi.
    unfold budget. rewrite (queued_same _ _ _ Ht).
    destruct (decide (el0 = el)) as [->|Hne].
    + rewrite (lit_active _ _ Ha).
      rewrite (lit_not_active el w'); [lia|].
      unfold active. rewrite Hcl. set_solver.
    + rewrite (lit_same el w w') by (apply Ho; congruence). lia.
  - destruct H as (Ha & _ & Hcl & Hc & _).
    unfold budget. rewrite (queued_same _ _ _ Ht), (invoked_same _ _ _ Hc).
    destruct (decide (el0 = el)) as [->|Hne].
    + rewrite (lit_not_active _ _ Ha).
      rewrite (lit_not_active el w'); [lia|].
      unfold active in *. rewrite Hcl. set_solver.
    + rewrite (lit_same el w w') by (apply Ho; congruence). lia.
  - destruct H as (_ & _ & -> & _). lia.
Qed.

Lemma on_touchmove_budget el0 w el :
  invoked el (fst (on_touchmove el0 w)) + budget el (fst (on_touchmove el0 w))
  <= invoked el w + budget el w.
Proof.
  rewrite on_touchmove_spec. simpl.
  unfold budget, invoked, calls_on, pending_for, lit. simpl.
  destruct (decide (el = el0)) as [->|Hne].
  - rewrite fn_lookup_insert.
    rewrite (bool_decide_eq_false_2 (_ ∈ _ ∖ _)) by set_solver.
    case_bool_decide; lia.
  - rewrite !fn_lookup_insert_ne by done. lia.
Qed.

Lemma on_touchstart_budget cfg el0 ev w el :
  invoked el (fst (on_touchstart cfg el0 ev w)) = invoked el w /\
  budget el (fst (on_touchstart cfg el0 ev w))
  <= (if decide (el0 = el) then
        Nat.max (budget el w) (S (length (pending_for el w)))
      else budget el w).
Proof.
  destruct (on_touchstart cfg el0 ev w) as [w' r] eqn:Hrun. simpl.
  apply on_touchstart_spec in Hrun as (Ho & Hc & _ & [H|H]).
  - destruct H as (_ & Hcl & Ht & _).
    split; [by apply invoked_same|].
    unfold budget, pending_for. rewrite Ht, filter_cons. simpl.
    destruct (decide (el0 = el)) as [->|Hne].
    + rewrite (lit_not_active el w'); [simpl; lia|].
      unfold active. rewrite Hcl. set_solver.
    + rewrite (lit_same el w w') by (apply Ho; congruence). lia.
  - destruct H as (_ & Hcl & Ht & _).
    split; [by apply invoked_same|].
    unfold budget. rewrite (queued_same _ _ _ Ht), (lit_same el w w') by (by rewrite Hcl).
    destruct (decide (el0 = el)); lia.
Qed.

Lemma timer_callback_budget cfg t w el :
  invoked el (fst (timer_callback cfg t w))
  + budget el (fst (timer_callback cfg t w))
  <= invoked el w + budget el w + (if decide (t_el t = el) then 1 else 0).
Proof.
  destruct (timer_callback cfg t w) as [w' r] eqn:Hrun. simpl.
  apply timer_callback_spec in Hrun as ((Ht & _) & Ho & [H|[H|H]]).
  - destruct H as (_ & Hcl & Hl).
    pose proof (invoked_grows _ el _ _ _ _ Hl) as Hi.
    unfold budget. rewrite (queued_same _ _ _ Ht).
    rewrite (lit_same el w w') by (by rewrite Hcl). lia.
  - destruct H as (_ & _ & Hcl & Hc & _).
    unfold budget. rewrite (queued_same _ _ _ Ht), (invoked_same _ _ _ Hc).
    destruct (decide (t_el t = el)) as [<-|Hne].
    + pose proof (lit_le_1 (t_el t) w'). lia.
    + rewrite (lit_same el w w') by (apply Ho; congruence). lia.
  - destruct H as (_ & _ & -> & _). lia.
Qed.

Lemma on_click_prevent_budget ev w el :
  invoked el (fst (on_click_prevent ev w)) = invoked el w /\
  budget el (fst (on_click_prevent ev w)) = budget el w.
Proof. done. Qed.

Lemma step_budget b l w el :
  touch_binding b ->
  invoked el (fst (step b w l)) + budget el (fst (step b w l))
  <= invoked el w + budget el w
     + (if is_touchstart_on el l then 1 else 0).
Proof.
  intros Hb. destruct l as [ty el0 ev|id|e].
  - destruct (decide (el0 ∈ b_elems b)) as [Hin|Hout].
    2:{ unfold step. rewrite bool_decide_eq_false_2 by done. simpl. lia. }
    rewrite step_dispatch_touch by done. unfold is_touchstart_on.
    destruct (String.eqb ty "touchstart"); simpl andb; cbv iota.
    { rewrite fst_outcome.
      pose proof (on_touchstart_budget (b_cfg b) el0 ev w el) as [-> Hq].
      destruct (decide (el0 = el)) as [->|Hne].
      - rewrite Nat.eqb_refl. unfold budget in *. lia.
      - destruct (Nat.eqb el el0); lia. }
    destruct (String.eqb ty "touchend").
    { rewrite fst_outcome.
      pose proof (on_touchend_budget (b_cfg b) el0 ev w el). lia. }
    destruct (String.eqb ty "click").
    { rewrite fst_outcome.
      pose proof (on_click_prevent_budget ev w el) as [-> ->]. lia. }
    destruct (String.eqb ty "touchmove" && truthy _).
    { rewrite fst_outcome.
      pose proof (on_touchmove_budget el0 w el). lia. }
    simpl. lia.
  - unfold step.
    destruct (take_timer id (w_timers w)) as [[t rest]|] eqn:Htake;
      [|simpl; lia].
    rewrite fst_outcome. simpl.
    pose proof (timer_callback_budget (b_cfg b) t (set_timers rest w) el) as Hq.
    pose proof (take_timer_queued el _ _ _ _ Htake) as Hlen.
    assert (invoked el (set_timers rest w) = invoked el w) as Hi by done.
    assert (budget el (set_timers rest w) + (if decide (t_el t = el) then 1 else 0)
            = budget el w) as Hbud.
    { unfold budget, pending_for, lit. simpl. lia. }
    lia.
  - simpl. unfold budget, invoked, calls_on, pending_for, lit. simpl. lia.
Qed.

(** Invocations are paid for: each one uses up the highlight or a queued
    timeout, and only a touch-start on the element adds to those. *)
Lemma run_budget b tr w el :
  touch_binding b ->
  invoked el (run b w tr) + budget el (run b w tr)
  <= invoked el w + budget el w + touchstarts_on el tr.
Proof.
  intros Hb. revert w. induction tr as [|l tr IH]; intros w.
  - rewrite run_nil. unfold touchstarts_on. simpl. lia.
  - rewrite run_cons. specialize (IH (fst (step b w l))).
    pose proof (step_budget b l w el Hb) as Hs.
    unfold touchstarts_on in *. rewrite filter_cons.
    destruct (is_touchstart_on el l); simpl in *; lia.
Qed.

Lemma touchstart_budget b w el ev :
  touch_binding b ->
  let w1 := fst (step b w (Dispatch "touchstart" el ev)) in
  invoked el w1 = invoked el w /\
  budget el w1 <= 1 + length (pending_for el w).
Proof.
  intros Hb w1. subst w1. pose proof (lit_le_1 el w) as Hlit.
  destruct (decide (el ∈ b_elems b)) as [Hin|Hout].
  - rewrite step_touchstart by done.
    pose proof (on_touchstart_budget (b_cfg b) el ev w el) as [-> Hle].
    split; [done|]. rewrite decide_True in Hle by done.
    unfold budget in *. lia.
  - unfold step. rewrite bool_decide_eq_false_2 by done. simpl.
    split; [done|]. unfold budget. lia.
Qed.

(** Under a touch-capable binding, take a touch-start on [el]
    (whether or not the guard lets it pass) followed by any events,
    timeouts and application steps that include no further touch-start on
    [el].  The invocations of the action with [el] as receiver grow by at
    most one, plus one for each timeout of an earlier touch-start that was
    still queued for [el] when the cycle began; so a cycle that begins
    with no such left-over timeout invokes the action at most once. *)
Theorem cycle_invocations_bounded (b : binding) (w : world Env) (el ev : nat)
    (tr : list (label Env)) :
  touch_binding b ->
  touchstarts_on el tr = 0 ->
  invoked el (run b w (Dispatch "touchstart" el ev :: tr))
  <= invoked el w + 1 + length (pending_for el w) /\
  (pending_for el w = [] ->
   invoked el (run b w (Dispatch "touchstart" el ev :: tr))
   <= invoked el w + 1).
Proof.
  intros Hb Htr. rewrite run_cons.
  pose proof (touchstart_budget b w el ev Hb) as [Hi Hbud].
  pose proof (run_budget b tr (fst (step b w (Dispatch "touchstart" el ev)))
                el Hb) as Hrun.
  rewrite Htr in Hrun. unfold budget in *.
  set (w1 := fst (step b w (Dispatch "touchstart" el ev))) in *.
  clearbody w1. split; [lia|].
  intros Hq. rewrite Hq in Hbud. simpl in Hbud. lia.
Qed.

(** *** An idle element stays idle until it is touched again *)

Lemma step_idle b l w el :
  touch_binding b ->
  is_touchstart_on el l = false ->
  idle (w_classes w el) ->
  idle (w_classes (fst (step b w l)) el) /\
  invoked el (fst (step b w l)) = invoked el w.
Proof.
  intros Hb Hl Hidle. pose proof Hidle as (Hp & Ha & He).
  destruct l as [ty el0 ev|id|e].
  - destruct (decide (el0 ∈ b_elems b)) as [Hin|Hout].
    2:{ unfold step. by rewrite bool_decide_eq_false_2. }
    rewrite step_dispatch_touch by done. unfold is_touchstart_on in Hl.
    destruct (String.eqb ty "touchstart"); simpl in Hl.
    { apply Nat.eqb_neq in Hl. rewrite fst_outcome.
      destruct (on_touchstart _ _ _ _) as [w' r] eqn:Hrun. simpl.
      apply on_touchstart_spec in Hrun as (Ho & Hc & _).
      rewrite Ho by done. split; [done|]. by apply invoked_same. }
    destruct (String.eqb ty "touchend").
    { rewrite fst_outcome.
      destruct (on_touchend _ _ _ _) as [w' r] eqn:Hrun. simpl.
      apply on_touchend_spec in Hrun as (_ & Ho & Hcases).
      destruct (decide (el0 = el)) as [->|Hne].
      - destruct Hcases as [H|[H|H]].
        + by destruct H as [H _].
        + by destruct H as (_ & H & _).
        + by destruct H as (_ & _ & -> & _).
      - rewrite Ho by done. split; [done|].
        destruct Hcases as [H|[H|H]].
        + destruct H as (_ & _ & Hg).
          pose proof (invoked_grows _ el _ _ _ _ Hg) as Hi.
          rewrite decide_False in Hi by done. lia.
        + destruct H as (_ & _ & _ & Hc & _). by apply invoked_same.
        + by destruct H as (_ & _ & -> & _). }
    destruct (String.eqb ty "click"); [done|].
    destruct (String.eqb ty "touchmove" && truthy _); [|done].
    rewrite fst_outcome, on_touchmove_spec. simpl. split; [|done].
    destruct (decide (el = el0)) as [->|Hne].
    + rewrite fn_lookup_insert. unfold idle, pending, active, ended_early in *.
      set_solver.
    + by rewrite !fn_lookup_insert_ne.
  - unfold step.
    destruct (take_timer id (w_timers w)) as [[t rest]|] eqn:Htake; [|done].
    rewrite fst_outcome.
    destruct (timer_callback _ _ _) as [w' r] eqn:Hrun. simpl.
    destruct (decide (t_el t = el)) as [<-|Hne].
    + rewrite timer_callback_idle in Hrun by done.
      by injection Hrun as <- <-.
    + apply timer_callback_spec in Hrun as (_ & Ho & Hcases).
      rewrite Ho by done. split; [done|].
      destruct Hcases as [H|[H|H]].
      * destruct H as (_ & _ & Hg).
        pose proof (invoked_grows _ el _ _ _ _ Hg) as Hi.
        rewrite decide_False in Hi by done. simpl in Hi.
        change (invoked el (set_timers rest w)) with (invoked el w) in Hi. lia.
      * destruct H as (_ & _ & _ & Hc & _).
        by rewrite (invoked_same _ _ _ Hc).
      * by destruct H as (_ & _ & -> & _).
  - done.
Qed.

Lemma run_idle b tr w el :
  touch_binding b ->
  touchstarts_on el tr = 0 ->
  idle (w_classes w el) ->
  idle (w_classes (run b w tr) el) /\
  invoked el (run b w tr) = invoked el w.
Proof.
  intros Hb. revert w. induction tr as [|l tr IH]; intros w Htr Hidle; [done|].
  unfold touchstarts_on in Htr. rewrite filter_cons in Htr.
  destruct (is_touchstart_on el l) eqn:Hl; simpl in Htr; [done|].
  rewrite run_cons.
  pose proof (step_idle b l w el Hb Hl Hidle) as [Hidle' Hi].
  destruct (IH _ Htr Hidle') as [? ?]. split; [done|]. congruence.
Qed.

(** C6.  Under a touch-capable binding with a truthy [cancelOnMove], a
    touch-move on [el] in any world removes the three markers of [el],
    leaves the other elements and the log as they are, and from then on,
    through any events, timeouts and application steps up to the next
    touch-start on [el], the element stays without markers and no
    invocation of the action on [el] is added. *)
Theorem C6_move_cancels (b : binding) (w : world Env) (el ev : nat)
    (tr : list (label Env)) :
  touch_binding b -> el ∈ b_elems b ->
  truthy (cancelOnMove (b_cfg b)) = true ->
  touchstarts_on el tr = 0 ->
  let w1 := run b w [Dispatch "touchmove" el ev] in
  w_classes w1 el
  = ((w_classes w el ∖ {["touched"]}) ∖ {["touch-started"]})
    ∖ {["touch-ended"]} /\
  idle (w_classes w1 el) /\
  (forall x, x <> el -> w_classes w1 x = w_classes w x) /\
  w_calls w1 = w_calls w /\
  idle (w_classes (run b w1 tr) el) /\
  invoked el (run b w1 tr) = invoked el w.
Proof.
  intros Hb Hel Hcom Htr. cbv zeta.
  rewrite run_cons, run_nil, step_touchmove by done.
  rewrite on_touchmove_spec. simpl.
  set (w1 := set_classes _ w).
  assert (Hidle : idle (w_classes w1 el)).
  { subst w1. simpl. rewrite fn_lookup_insert.
    unfold idle, pending, active, ended_early. set_solver. }
  pose proof (run_idle b tr w1 el Hb Htr Hidle) as [Hfin Hinv].
  split_and!; auto.
  - subst w1. simpl. by rewrite fn_lookup_insert.
  - intros x Hne. subst w1. simpl. by rewrite !fn_lookup_insert_ne.
Qed.

(** *** The two forms of the argument *)

(** C8.  Binding with the bare function [f] and binding with the object
    whose only field is [callback: f] give the same binding: the
    configuration with [cancelOnMove = true], the always-true guard and
    [touchDelay = 0], the same elements and the same handlers; hence the
    same worlds and the same exceptions along every trace. *)
Theorem C8_shorthand_equivalent (touchSupported : bool) (f : fn)
    (this : list nat) :
  tappable touchSupported (VFun f) this
  = tappable touchSupported (VObj [("callback", VFun f)]) this /\
  tappable touchSupported (VFun f) this
  = inl {| b_elems := this;
           b_cfg := {| callback := VFun f; cancelOnMove := VBool true;
                       onlyIf := VFun FnConstTrue; touchDelay := VNum 0 |};
           b_handlers :=
             bound_handlers touchSupported (default_config (VFun f)) |} /\
  guard_always_true (default_config (VFun f)) /\
  truthy (cancelOnMove (default_config (VFun f))) = true /\
  (forall w tr,
      match tappable touchSupported (VFun f) this,
            tappable touchSupported (VObj [("callback", VFun f)]) this with
      | inl b1, inl b2 => exec b1 w tr = exec b2 w tr
      | _, _ => False
      end).
Proof.
  unfold guard_always_true.
  split_and!; reflexivity || (intros; reflexivity).
Qed.

(** *** A non-callable action *)

Lemma bound_handlers_bindable ts cfg :
  Forall (fun p => bindable cfg (snd p)) (bound_handlers ts cfg).
Proof.
  unfold bound_handlers, bindable.
  destruct ts; [destruct (truthy _)|destruct (is_function _) eqn:?];
    repeat constructor; simpl; congruence.
Qed.

Lemma call_onlyIf_raises cfg el w w' e :
  is_function (onlyIf cfg) = true ->
  call_onlyIf cfg el w = (w', inr e) -> user_raised e.
Proof.
  unfold user_raised. intros Hg. unfold_m.
  destruct (onlyIf cfg); try discriminate Hg.
  destruct (apply_fn _ _ _ _) as [e' [v|v]]; intros [= <- <-]; eauto.
Qed.

Lemma fireCallback_raises cfg el ev w w' e :
  is_function (onlyIf cfg) = true ->
  fireCallback cfg el ev w = (w', inr e) -> user_raised e.
Proof.
  intros Hg. unfold fireCallback.
  destruct (is_function (callback cfg)) eqn:Hf; [|by intros [= <- ?]].
  unfold bind at 1.
  destruct (call_onlyIf cfg el w) as [w1 [[|]|e1]] eqn:Hcall.
  - unfold user_raised. unfold_m. rewrite Hf.
    destruct (callback cfg); try discriminate Hf.
    destruct (apply_fn _ _ _ _) as [e' [v|v]]; intros [= <- <-]; eauto.
  - by intros [= <- ?].
  - intros [= <- <-]. eapply call_onlyIf_raises; eauto.
Qed.

Lemma handler_raises cfg h el ev w w' e :
  is_function (onlyIf cfg) = true ->
  bindable cfg h ->
  run_handler cfg h el ev w = (w', inr e) -> user_raised e.
Proof.
  intros Hg Hb. destruct h; simpl.
  - unfold on_touchstart. unfold bind at 1.
    destruct (call_onlyIf cfg el w) as [w1 [[|]|e1]] eqn:Hcall.
    + unfold_m. by intros [= <- ?].
    + by intros [= <- ?].
    + intros [= <- <-]. eapply call_onlyIf_raises; eauto.
  - unfold on_touchend. unfold bind at 1, hasClass at 1.
    case_bool_decide.
    + unfold bind at 1, removeClass at 1. by apply fireCallback_raises.
    + unfold_m. case_bool_decide; by intros [= <- ?].
  - by intros [= <- ?].
  - rewrite on_touchmove_spec. by intros [= <- ?].
  - specialize (Hb eq_refl). unfold on_click_fallback. unfold bind at 1.
    destruct (call_onlyIf cfg el w) as [w1 [[|]|e1]] eqn:Hcall.
    + unfold user_raised. unfold_m. rewrite Hb.
      destruct (callback cfg); try discriminate Hb.
      destruct (apply_fn _ _ _ _) as [e' [v|v]]; intros [= <- <-]; eauto.
    + by intros [= <- ?].
    + intros [= <- <-]. eapply call_onlyIf_raises; eauto.
Qed.

Lemma timer_callback_raises cfg t w w' e :
  is_function (onlyIf cfg) = true ->
  timer_callback cfg t w = (w', inr e) -> user_raised e.
Proof.
  intros Hg. unfold timer_callback. unfold bind at 1, hasClass at 1.
  case_bool_decide.
  - by apply fireCallback_raises.
  - unfold_m. case_bool_decide; by intros [= <- ?].
Qed.

Lemma handler_silent cfg h el ev w :
  is_function (callback cfg) = false ->
  bindable cfg h ->
  w_calls (fst (run_handler cfg h el ev w)) = w_calls w.
Proof.
  intros Hf Hb.
  destruct (run_handler cfg h el ev w) as [w' r] eqn:Hrun. simpl.
  destruct h; simpl in Hrun.
  - by apply on_touchstart_spec in Hrun as (_ & Hc & _).
  - apply on_touchend_spec in Hrun as (_ & _ & [H|[H|H]]).
    + destruct H as (_ & _ & [Hc|(_ & Hc & _)]); [done|congruence].
    + by destruct H as (_ & _ & _ & Hc & _).
    + by destruct H as (_ & _ & -> & _).
  - by injection Hrun as <- <-.
  - rewrite on_touchmove_spec in Hrun. by injection Hrun as <- <-.
  - specialize (Hb eq_refl). congruence.
Qed.

Lemma timer_callback_silent cfg t w :
  is_function (callback cfg) = false ->
  w_calls (fst (timer_callback cfg t w)) = w_calls w.
Proof.
  intros Hf.
  destruct (timer_callback cfg t w) as [w' r] eqn:Hrun. simpl.
  apply timer_callback_spec in Hrun as (_ & _ & [H|[H|H]]).
  - destruct H as (_ & _ & [Hc|(_ & Hc & _)]); [done|congruence].
  - by destruct H as (_ & _ & _ & Hc & _).
  - by destruct H as (_ & _ & -> & _).
Qed.

Lemma run_handlers_quiet cfg hs ty el ev w :
  is_function (callback cfg) = false ->
  is_function (onlyIf cfg) = true ->
  Forall (fun p => bindable cfg (snd p)) hs ->
  w_calls (fst (run_handlers cfg hs ty el ev w)) = w_calls w /\
  (forall e, snd (run_handlers cfg hs ty el ev w) = inr e -> user_raised e).
Proof.
  intros Hf Hg Hhs. revert w.
  induction Hhs as [|[ty' h] hs Hh Hhs IH]; intros w; simpl; [done|].
  destruct (String.eqb ty ty'); [|apply IH].
  unfold bind.
  pose proof (handler_silent cfg h el ev w Hf Hh) as Hc.
  destruct (run_handler cfg h el ev w) as [w1 [[]|e1]] eqn:Hrun; simpl in *.
  - destruct (IH w1) as [Hc1 He1]. split; [congruence|done].
  - split; [done|]. intros e [= <-]. eapply handler_raises; eauto.
Qed.

Lemma snd_outcome {A} (r : world Env * (A + exn)) e :
  snd (outcome r) = Some e -> snd r = inr e.
Proof. destruct r as [w [a|e']]; simpl; congruence. Qed.

Lemma step_quiet b w l :
  is_function (callback (b_cfg b)) = false ->
  is_function (onlyIf (b_cfg b)) = true ->
  Forall (fun p => bindable (b_cfg b) (snd p)) (b_handlers b) ->
  w_calls (fst (step b w l)) = w_calls w /\
  (forall e, snd (step b w l) = Some e -> user_raised e).
Proof.
  intros Hf Hg Hhs. destruct l as [ty el ev|id|e0]; simpl.
  - case_bool_decide; [|done].
    pose proof (run_handlers_quiet (b_cfg b) (b_handlers b) ty el ev w
                  Hf Hg Hhs) as [Hc He].
    rewrite fst_outcome. split; [done|].
    intros e Hsnd. apply He. by apply snd_outcome.
  - destruct (take_timer id (w_timers w)) as [[t rest]|]; [|done].
    rewrite fst_outcome. split.
    + by rewrite timer_callback_silent.
    + intros e Hsnd. apply snd_outcome in Hsnd.
      destruct (timer_callback _ _ _) as [w' r] eqn:Hrun. simpl in Hsnd.
      subst r. eapply timer_callback_raises; eauto.
  - done.
Qed.

Lemma exec_quiet b w tr :
  is_function (callback (b_cfg b)) = false ->
  is_function (onlyIf (b_cfg b)) = true ->
  Forall (fun p => bindable (b_cfg b) (snd p)) (b_handlers b) ->
  w_calls (fst (exec b w tr)) = w_calls w /\
  Forall user_raised (snd (exec b w tr)).
Proof.
  intros Hf Hg Hhs. revert w.
  induction tr as [|l tr IH]; intros w; simpl; [by split|].
  pose proof (step_quiet b w l Hf Hg Hhs) as [Hc He].
  destruct (step b w l) as [w1 r]. simpl in *.
  destruct (IH w1) as [Hc1 He1].
  destruct (exec b w1 tr) as [w2 es]. simpl in *.
  split; [congruence|].
  apply Forall_app. split; [|done].
  destruct r as [e|]; simpl; [|constructor].
  constructor; [|constructor]. by apply He.
Qed.

Lemma with_callback_touch cb b :
  touch_binding b -> touch_binding (with_callback cb b).
Proof. unfold touch_binding. simpl. by intros ->. Qed.

Lemma on_touchstart_same_guard cfg cfg' el ev w :
  onlyIf cfg' = onlyIf cfg -> touchDelay cfg' = touchDelay cfg ->
  on_touchstart cfg' el ev w = on_touchstart cfg el ev w.
Proof.
  intros Hg Hd. unfold on_touchstart, call_onlyIf. by rewrite Hg, Hd.
Qed.

Lemma same_page_of w w1 w2 :
  w_classes w1 = w_classes w2 ->
  queue_kept w w1 -> queue_kept w w2 -> same_page w2 w1.
Proof.
  unfold queue_kept, same_page. intros -> (-> & -> & ->) (-> & -> & ->). done.
Qed.

(** The action does not decide the page: whatever value is configured as
    [callback], a task leaves the same classes, queue and prevented
    events. *)
Lemma step_page_ignores_callback cb b w l :
  touch_binding b ->
  same_page (fst (step b w l)) (fst (step (with_callback cb b) w l)).
Proof.
  intros Hb. pose proof (with_callback_touch cb b Hb) as Hb'.
  destruct l as [ty el ev|id|e0].
  - destruct (decide (el ∈ b_elems b)) as [Hin|Hout].
    2:{ unfold step. simpl. by rewrite !bool_decide_eq_false_2. }
    rewrite !step_dispatch_touch by done.
    destruct (String.eqb ty "touchstart").
    { by rewrite (on_touchstart_same_guard (b_cfg b)
                    (b_cfg (with_callback cb b))). }
    destruct (String.eqb ty "touchend").
    { rewrite !fst_outcome.
      apply (same_page_of w).
      - by rewrite !on_touchend_classes.
      - destruct (on_touchend (b_cfg (with_callback cb b)) el ev w)
          as [w1 r1] eqn:H1.
        by apply on_touchend_spec in H1 as (? & _).
      - destruct (on_touchend (b_cfg b) el ev w) as [w1 r1] eqn:H1.
        by apply on_touchend_spec in H1 as (? & _). }
    destruct (String.eqb ty "click"); [done|].
    simpl. destruct (String.eqb ty "touchmove" && truthy _); done.
  - unfold step.
    destruct (take_timer id (w_timers w)) as [[t rest]|]; [|done].
    rewrite !fst_outcome.
    apply (same_page_of (set_timers rest w)).
    + by rewrite !timer_callback_classes.
    + destruct (timer_callback (b_cfg (with_callback cb b)) t _)
        as [w1 r1] eqn:H1.
      by apply timer_callback_spec in H1 as (? & _).
    + destruct (timer_callback (b_cfg b) t _) as [w1 r1] eqn:H1.
      by apply timer_callback_spec in H1 as (? & _).
  - done.
Qed.

(** C9.  A binding made by [$.fn.tappable] whose [callback] is not a
    function, with a callable guard: along every trace no invocation is
    logged, and every exception that reaches the host was thrown by the
    guard itself (none is a TypeError of the plugin).  On a touch-capable
    platform every task leaves the classes, the timeout queue and the
    prevented events exactly as it does with any other value configured as
    [callback], and a click on a bound element prevents its default. *)
Theorem C9_non_callable_action (touchSupported : bool) (options : jsval)
    (this : list nat) (b : binding) (w : world Env) (tr : list (label Env)) :
  tappable touchSupported options this = inl b ->
  is_function (callback (b_cfg b)) = false ->
  is_function (onlyIf (b_cfg b)) = true ->
  w_calls (run b w tr) = w_calls w /\
  Forall user_raised (snd (exec b w tr)) /\
  (touchSupported = true ->
   (forall cb w0 l,
       same_page (fst (step b w0 l)) (fst (step (with_callback cb b) w0 l))) /\
   (forall el ev w0,
       el ∈ this ->
       w_prevented (fst (step b w0 (Dispatch "click" el ev)))
       = w_prevented w0 ++ [ev] /\
       snd (step b w0 (Dispatch "click" el ev)) = None)).
Proof.
  intros Htap Hf Hg. unfold tappable in Htap.
  destruct (read_options options) as [cfg|e] eqn:Hopt; [|done].
  injection Htap as <-. simpl in Hf, Hg.
  pose proof (bound_handlers_bindable touchSupported cfg) as Hhs.
  pose proof (exec_quiet (Binding this cfg (bound_handlers touchSupported cfg))
                w tr Hf Hg Hhs) as [Hc He].
  split_and!; [done|done|].
  intros ->. split.
  - intros cb w0 l. by apply step_page_ignores_callback.
  - intros el ev w0 Hel.
    rewrite step_dispatch_touch; [done|reflexivity|done].
Qed.

(** ** Further properties of the handlers and the binder *)

(** *** What a task can reach *)

Lemma footprint_refl el w : footprint el w w.
Proof.
  split_and!; [done| |].
  - exists []. by split.
  - exists []. split; [by rewrite app_nil_r|done].
Qed.

Lemma footprint_trans el w1 w2 w3 :
  footprint el w1 w2 -> footprint el w2 w3 -> footprint el w1 w3.
Proof.
  intros (Ho1 & (ts1 & Ht1 & Hf1) & (cs1 & Hc1 & Hg1))
         (Ho2 & (ts2 & Ht2 & Hf2) & (cs2 & Hc2 & Hg2)).
  split_and!.
  - intros x Hx. rewrite Ho2, Ho1; done.
  - exists (ts2 ++ ts1). split.
    + by rewrite Ht2, Ht1, app_assoc.
    + by apply Forall_app.
  - exists (cs1 ++ cs2). split.
    + by rewrite Hc2, Hc1, app_assoc.
    + by apply Forall_app.
Qed.

Lemma footprint_of el ev d w w' :
  others_kept el w w' ->
  (w_timers w' = w_timers w \/
   w_timers w' = (w_next w, Timer el ev d) :: w_timers w) ->
  (w_calls w' = w_calls w \/
   w_calls w' = w_calls w ++ [Call (VElem el) [VEvent ev]]) ->
  footprint el w w'.
Proof.
  intros Ho Ht Hc. split_and!; [done| |].
  - destruct Ht as [Ht|Ht].
    + exists []. by split.
    + exists [(w_next w, Timer el ev d)]. split; [done|].
      by repeat constructor.
  - destruct Hc as [Hc|Hc].
    + exists []. split; [by rewrite app_nil_r|done].
    + exists [Call (VElem el) [VEvent ev]]. split; [done|].
      repeat constructor. by exists ev.
Qed.

Lemma handler_footprint cfg h el ev w w' r :
  run_handler cfg h el ev w = (w', r) -> footprint el w w'.
Proof.
  intros Hrun. apply (footprint_of el ev (touchDelay cfg)).
  all: destruct h; simpl in Hrun.
  - by apply on_touchstart_spec in Hrun as (Ho & _).
  - by apply on_touchend_spec in Hrun as (_ & Ho & _).
  - injection Hrun as <- <-. by intros x Hx.
  - rewrite on_touchmove_spec in Hrun. injection Hrun as <- <-.
    intros x Hx. simpl. by rewrite !fn_lookup_insert_ne.
  - apply on_click_fallback_spec in Hrun as ((Hcl & _) & _).
    intros x Hx. by rewrite Hcl.
  - apply on_touchstart_spec in Hrun as (_ & _ & _ & [H|H]).
    + right. by destruct H as (_ & _ & Ht & _).
    + left. by destruct H as (_ & _ & Ht & _).
  - left. by apply on_touchend_spec in Hrun as ((Ht & _) & _).
  - left. by injection Hrun as <- <-.
  - left. rewrite on_touchmove_spec in Hrun. by injection Hrun as <- <-.
  - left. by apply on_click_fallback_spec in Hrun as ((_ & Ht & _) & _).
  - left. by apply on_touchstart_spec in Hrun as (_ & Hc & _).
  - apply on_touchend_spec in Hrun as (_ & _ & [H|[H|H]]).
    + destruct H as (_ & _ & [Hc|(Hc & _)]); auto.
    + left. by destruct H as (_ & _ & _ & Hc & _).
    + left. by destruct H as (_ & _ & -> & _).
  - left. by injection Hrun as <- <-.
  - left. rewrite on_touchmove_spec in Hrun. by injection Hrun as <- <-.
  - apply on_click_fallback_spec in Hrun as (_ & [Hc|(Hc & _)]); auto.
Qed.

Lemma run_handlers_footprint cfg hs ty el ev w w' r :
  run_handlers cfg hs ty el ev w = (w', r) -> footprint el w w'.
Proof.
  revert w. induction hs as [|[ty' h] hs IH]; intros w; simpl.
  - unfold ret. intros [= <- <-]. apply footprint_refl.
  - destruct (String.eqb ty ty'); [|apply IH].
    unfold bind.
    destruct (run_handler cfg h el ev w) as [w1 [[]|e]] eqn:Hh; intros Hrun.
    + eapply footprint_trans; [by eapply handler_footprint|by apply IH].
    + injection Hrun as <- <-. by eapply handler_footprint.
Qed.

Lemma timer_callback_footprint cfg t w w' r :
  timer_callback cfg t w = (w', r) -> footprint (t_el t) w w'.
Proof.
  intros Hrun. apply (footprint_of (t_el t) (t_event t) (t_delay t)).
  - by apply timer_callback_spec in Hrun as (_ & Ho & _).
  - left. by apply timer_callback_spec in Hrun as ((Ht & _) & _).
  - apply timer_callback_spec in Hrun as (_ & _ & [H|[H|H]]).
    + destruct H as (_ & _ & [Hc|(Hc & _)]); auto.
    + left. by destruct H as (_ & _ & _ & Hc & _).
    + left. by destruct H as (_ & _ & -> & _).
Qed.

(** *** The log *)

Lemma footprint_log el w w' : footprint el w w' -> log_extends w w'.
Proof.
  intros (_ & _ & (cs & Hc & Hf)). exists cs. split; [done|].
  eapply Forall_impl; [|exact Hf]. intros c [ev ->]. by exists el, ev.
Qed.

Lemma log_extends_trans w1 w2 w3 :
  log_extends w1 w2 -> log_extends w2 w3 -> log_extends w1 w3.
Proof.
  intros (cs1 & Hc1 & Hf1) (cs2 & Hc2 & Hf2). exists (cs1 ++ cs2). split.
  - by rewrite Hc2, Hc1, app_assoc.
  - by apply Forall_app.
Qed.

Lemma step_log_extends b w l : log_extends w (fst (step b w l)).
Proof.
  destruct l as [ty el ev|id|e]; simpl.
  - case_bool_decide; [|exists []; split; [by rewrite app_nil_r|done]].
    destruct (run_handlers _ _ _ _ _ _) as [w' r] eqn:Hrun.
    rewrite fst_outcome. simpl.
    eapply footprint_log. by eapply run_handlers_footprint.
  - destruct (take_timer id (w_timers w)) as [[t rest]|];
      [|exists []; split; [by rewrite app_nil_r|done]].
    destruct (timer_callback _ _ _) as [w' r] eqn:Hrun.
    rewrite fst_outcome. simpl.
    apply timer_callback_footprint, footprint_log in Hrun. exact Hrun.
  - exists []. split; [by rewrite app_nil_r|done].
Qed.

(** X10.  Whatever the binding and the trace, the log is only extended,
    and every invocation added has an element as receiver and a single
    event as argument list. *)
Theorem X10_log_only_grows (b : binding) (w : world Env)
    (tr : list (label Env)) :
  exists cs, w_calls (run b w tr) = w_calls w ++ cs /\ Forall tap_call cs.
Proof.
  change (log_extends w (run b w tr)).
  revert w. induction tr as [|l tr IH]; intros w.
  - rewrite run_nil. exists []. split; [by rewrite app_nil_r|done].
  - rewrite run_cons. eapply log_extends_trans; [apply step_log_extends|apply IH].
Qed.

(** *** The elements a task does not work on *)

Lemma filter_none {A} (P : A -> Prop) `{!forall x, Decision (P x)} (l : list A) :
  Forall (fun x => ~ P x) l -> filter P l = [].
Proof.
  induction 1 as [|x l Hx Hl IH]; [done|].
  rewrite filter_cons, decide_False by done. exact IH.
Qed.

Lemma footprint_elsewhere el0 el w w' :
  el0 <> el -> footprint el0 w w' ->
  w_classes w' el = w_classes w el /\
  invoked el w' = invoked el w /\
  pending_for el w' = pending_for el w.
Proof.
  intros Hne (Ho & (ts & Ht & Hf) & (cs & Hc & Hg)). split_and!.
  - by apply Ho.
  - unfold invoked, calls_on. rewrite Hc, list.filter_app.
    rewrite (filter_none _ cs), app_nil_r; [done|].
    eapply Forall_impl; [|exact Hg]. intros c [ev ->].
    unfold on_elem. simpl. rewrite Nat.eqb_eq. congruence.
  - unfold pending_for. rewrite Ht, list.filter_app.
    rewrite (filter_none _ ts); [done|].
    eapply Forall_impl; [|exact Hf]. simpl. congruence.
Qed.

Lemma take_timer_elsewhere x id ts t rest :
  take_timer id ts = Some (t, rest) -> t_el t <> x ->
  filter (fun p : nat * timer => t_el (snd p) = x) rest
  = filter (fun p : nat * timer => t_el (snd p) = x) ts.
Proof.
  revert rest. induction ts as [|[id' t'] ts IH]; intros rest; simpl; [done|].
  destruct (Nat.eqb id id').
  - intros [= -> ->] Hne. by rewrite filter_cons, decide_False.
  - destruct (take_timer id ts) as [[t1 rest1]|]; [|done].
    intros [= -> <-] Hne. rewrite !filter_cons, (IH _ eq_refl Hne). done.
Qed.

Lemma footprint_calls_elsewhere el0 el w w' :
  el0 <> el -> footprint el0 w w' -> calls_on el w' = calls_on el w.
Proof.
  intros Hne (_ & _ & (cs & Hc & Hg)).
  unfold calls_on. rewrite Hc, list.filter_app.
  rewrite (filter_none _ cs), app_nil_r; [done|].
  eapply Forall_impl; [|exact Hg]. intros c [ev ->].
  unfold on_elem. simpl. rewrite Nat.eqb_eq. congruence.
Qed.

(** X7.  A task works on one element at most: the handlers run for an
    event on the bound element they are run on (their [this]), a timeout
    closure on the element it captured, an application step on none.
    Every other element keeps its classes, the invocations logged for it
    and the timeouts queued for it. *)
Theorem X7_other_elements_untouched (b : binding) (w : world Env)
    (l : label Env) (x : nat) :
  acts_on w l <> Some x ->
  w_classes (fst (step b w l)) x = w_classes w x /\
  calls_on x (fst (step b w l)) = calls_on x w /\
  pending_for x (fst (step b w l)) = pending_for x w.
Proof.
  intros Hx. destruct l as [ty el ev|id|e]; simpl in *.
  - case_bool_decide; [|done].
    destruct (run_handlers _ _ _ _ _ _) as [w' r] eqn:Hrun.
    rewrite fst_outcome. simpl.
    apply run_handlers_footprint in Hrun.
    assert (el <> x) as Hne by congruence.
    destruct (footprint_elsewhere el x w w' Hne Hrun) as (? & _ & ?).
    split_and!; [done| |done]. by eapply footprint_calls_elsewhere.
  - destruct (take_timer id (w_timers w)) as [[t rest]|] eqn:Htake; [|done].
    destruct (timer_callback _ _ _) as [w' r] eqn:Hrun.
    rewrite fst_outcome. simpl.
    assert (t_el t <> x) as Hne by congruence.
    apply timer_callback_footprint in Hrun.
    destruct (footprint_elsewhere (t_el t) x _ w' Hne Hrun) as (Hc & _ & Hp).
    split_and!; [done| |].
    + by rewrite (footprint_calls_elsewhere _ _ _ _ Hne Hrun).
    + rewrite Hp. unfold pending_for. simpl.
      by apply (take_timer_elsewhere x id _ t).
  - done.
Qed.

Lemma step_unbound b w l el :
  el ∉ b_elems b -> pending_for el w = [] ->
  w_classes (fst (step b w l)) el = w_classes w el /\
  invoked el (fst (step b w l)) = invoked el w /\
  pending_for el (fst (step b w l)) = [].
Proof.
  intros Hel Hq. destruct l as [ty el0 ev|id|e]; simpl.
  - case_bool_decide as Hin; [|done].
    destruct (run_handlers _ _ _ _ _ _) as [w' r] eqn:Hrun.
    rewrite fst_outcome. simpl.
    apply run_handlers_footprint in Hrun.
    destruct (footprint_elsewhere el0 el w w') as (? & ? & ?);
      [congruence|done|].
    split_and!; congruence.
  - destruct (take_timer id (w_timers w)) as [[t rest]|] eqn:Htake; [|done].
    destruct (timer_callback _ _ _) as [w' r] eqn:Hrun.
    rewrite fst_outcome. simpl.
    pose proof (take_timer_queued el _ _ _ _ Htake) as Hlen.
    unfold pending_for in Hq. rewrite Hq in Hlen. simpl in Hlen.
    destruct (decide (t_el t = el)) as [|Hne]; [lia|].
    apply timer_callback_footprint in Hrun.
    destruct (footprint_elsewhere (t_el t) el _ w' Hne Hrun) as (Hc & Hi & Hp).
    split_and!; [done|done|].
    rewrite Hp. unfold pending_for. simpl.
    apply length_zero_iff_nil. lia.
  - done.
Qed.

(** X9.  An element outside the collection, with no timeout queued for it:
    whatever events (also events on that element), timeouts and application
    steps follow, its classes stay as they are, the action is never invoked
    on it and no timeout is ever queued for it. *)
Theorem X9_unbound_element_untouched (b : binding) (w : world Env)
    (tr : list (label Env)) (el : nat) :
  el ∉ b_elems b -> pending_for el w = [] ->
  w_classes (run b w tr) el = w_classes w el /\
  invoked el (run b w tr) = invoked el w /\
  pending_for el (run b w tr) = [].
Proof.
  intros Hel. revert w. induction tr as [|l tr IH]; intros w Hq; [done|].
  rewrite run_cons.
  destruct (step_unbound b w l el Hel Hq) as (Hc & Hi & Hp).
  destruct (IH _ Hp) as (Hc' & Hi' & Hp').
  split_and!; congruence.
Qed.

(** *** Classes that are not markers *)

Ltac kept_at x el :=
  destruct (decide (x = el)) as [->|?];
  [| match goal with
     | H : others_kept _ _ _ |- _ => by rewrite H
     end ].

Lemma handler_keeps_class c cfg h el ev w w' r :
  foreign c ->
  run_handler cfg h el ev w = (w', r) -> class_kept c w w'.
Proof.
  intros (H1 & H2 & H3) Hrun x. destruct h; simpl in Hrun.
  - apply on_touchstart_spec in Hrun as (Ho & _ & _ & [H|H]).
    + destruct H as (_ & Hcl & _). kept_at x el. rewrite Hcl. set_solver.
    + by destruct H as (_ & -> & _).
  - apply on_touchend_spec in Hrun as (_ & Ho & [H|[H|H]]).
    + destruct H as (_ & Hcl & _). kept_at x el. rewrite Hcl. set_solver.
    + destruct H as (_ & _ & Hcl & _). kept_at x el. rewrite Hcl. set_solver.
    + by destruct H as (_ & _ & -> & _).
  - by injection Hrun as <- <-.
  - rewrite on_touchmove_spec in Hrun. injection Hrun as <- <-. simpl.
    destruct (decide (x = el)) as [->|Hne].
    + rewrite fn_lookup_insert. set_solver.
    + by rewrite !fn_lookup_insert_ne.
  - by apply on_click_fallback_spec in Hrun as ((-> & _) & _).
Qed.

Lemma run_handlers_keep_class c cfg hs ty el ev w w' r :
  foreign c ->
  run_handlers cfg hs ty el ev w = (w', r) -> class_kept c w w'.
Proof.
  intros Hc. revert w. induction hs as [|[ty' h] hs IH]; intros w; simpl.
  - unfold ret. by intros [= <- <-].
  - destruct (String.eqb ty ty'); [|apply IH].
    unfold bind.
    destruct (run_handler cfg h el ev w) as [w1 [[]|e]] eqn:Hh; intros Hrun.
    + intros x. rewrite (IH _ Hrun x).
      by apply (handler_keeps_class c cfg h el ev w w1 (inl ())).
    + injection Hrun as <- <-.
      by apply (handler_keeps_class c cfg h el ev w w1 (inr e)).
Qed.

Lemma timer_callback_keeps_class c cfg t w w' r :
  foreign c ->
  timer_callback cfg t w = (w', r) -> class_kept c w w'.
Proof.
  intros (H1 & H2 & H3) Hrun x.
  apply timer_callback_spec in Hrun as (_ & Ho & [H|[H|H]]).
  - by destruct H as (_ & -> & _).
  - destruct H as (_ & _ & Hcl & _). kept_at x (t_el t).
    rewrite Hcl. set_solver.
  - by destruct H as (_ & _ & -> & _).
Qed.

Lemma step_keeps_class c b w l :
  foreign c -> class_kept c w (fst (step b w l)).
Proof.
  intros Hc. destruct l as [ty el ev|id|e]; simpl.
  - case_bool_decide; [|done].
    destruct (run_handlers _ _ _ _ _ _) as [w' r] eqn:Hrun.
    rewrite fst_outcome. simpl. by eapply run_handlers_keep_class.
  - destruct (take_timer id (w_timers w)) as [[t rest]|]; [|done].
    destruct (timer_callback _ _ _) as [w' r] eqn:Hrun.
    rewrite fst_outcome. simpl.
    apply (timer_callback_keeps_class c) in Hrun; done.
  - done.
Qed.

(** X8.  The plugin adds and removes no class but its three markers: a
    class with any other name is on an element after a run exactly if it
    was on it before. *)
Theorem X8_foreign_classes_kept (b : binding) (w : world Env)
    (tr : list (label Env)) (c : string) (x : nat) :
  foreign c ->
  (c ∈ w_classes (run b w tr) x <-> c ∈ w_classes w x).
Proof.
  intros Hc. revert w. induction tr as [|l tr IH]; intros w; [done|].
  rewrite run_cons, IH. by apply step_keeps_class.
Qed.

(** *** Invocations against touch-starts *)

(** X11.  Under a touch-capable binding, from a world in which the
    element is not highlighted and has no timeout queued: over any trace
    the action is invoked on the element at most as often as a touch-start
    was dispatched on it. *)
Theorem X11_invocations_bounded_by_touchstarts (b : binding) (w : world Env)
    (tr : list (label Env)) (el : nat) :
  touch_binding b ->
  ~ active (w_classes w el) -> pending_for el w = [] ->
  invoked el (run b w tr) <= invoked el w + touchstarts_on el tr.
Proof.
  intros Hb Ha Hq. pose proof (run_budget b tr w el Hb) as Hrun.
  unfold budget in Hrun. rewrite (lit_not_active _ _ Ha), Hq in Hrun.
  simpl in Hrun. lia.
Qed.

(** *** Exceptions *)

Lemma run_handlers_raise cfg hs ty el ev w w' e :
  is_function (onlyIf cfg) = true ->
  Forall (fun p => bindable cfg (snd p)) hs ->
  run_handlers cfg hs ty el ev w = (w', inr e) -> user_raised e.
Proof.
  intros Hg Hhs. revert w.
  induction Hhs as [|[ty' h] hs Hh Hhs IH]; intros w; simpl; [done|].
  destruct (String.eqb ty ty'); [|apply IH].
  unfold bind.
  destruct (run_handler cfg h el ev w) as [w1 [[]|e1]] eqn:Hrun.
  - apply IH.
  - intros [= <- <-]. by eapply handler_raises.
Qed.

(** X12.  A binding made by [$.fn.tappable] with a callable guard raises
    no exception of its own: along every trace, each exception that
    reaches the host was thrown by the guard or by the action. *)
Theorem X12_no_exception_of_its_own (touchSupported : bool) (options : jsval)
    (this : list nat) (b : binding) (w : world Env) (tr : list (label Env)) :
  tappable touchSupported options this = inl b ->
  is_function (onlyIf (b_cfg b)) = true ->
  Forall user_raised (snd (exec b w tr)).
Proof.
  intros Htap Hg. unfold tappable in Htap.
  destruct (read_options options) as [cfg|e] eqn:Hopt; [|done].
  injection Htap as <-. simpl in Hg.
  pose proof (bound_handlers_bindable touchSupported cfg) as Hhs.
  revert w. induction tr as [|l tr IH]; intros w; simpl; [done|].
  destruct (step _ w l) as [w1 r] eqn:Hstep.
  specialize (IH w1). destruct (exec _ w1 tr) as [w2 es]. simpl in *.
  apply Forall_app. split; [|done].
  destruct r as [e|]; simpl; [|constructor].
  constructor; [|constructor].
  destruct l as [ty el ev|id|e0]; simpl in Hstep.
  - case_bool_decide; [|done].
    destruct (run_handlers _ _ _ _ _ _) as [w' [[]|e']] eqn:Hrun;
      simpl in Hstep; [done|].
    injection Hstep as <- <-. by eapply run_handlers_raise.
  - destruct (take_timer id (w_timers w)) as [[t rest]|]; [|done].
    destruct (timer_callback _ _ _) as [w' [[]|e']] eqn:Hrun;
      simpl in Hstep; [done|].
    injection Hstep as <- <-. by eapply timer_callback_raises.
  - done.
Qed.

(** X13.  With a guard that is not a function, a touch-start on a bound
    element raises the TypeError of calling it and leaves the world as it
    was: no marker, no timeout. *)
Theorem X13_guard_not_callable (b : binding) (w : world Env) (el ev : nat) :
  touch_binding b -> el ∈ b_elems b ->
  is_function (onlyIf (b_cfg b)) = false ->
  step b w (Dispatch "touchstart" el ev)
  = (w, Some (NotCallable (onlyIf (b_cfg b)))).
Proof.
  intros Hb Hel Hg. rewrite step_dispatch_touch by done. simpl.
  unfold on_touchstart, call_onlyIf, bind, call_value.
  by destruct (onlyIf (b_cfg b)).
Qed.

(** *** More of the touch path *)

(** X4.  Under a touch-capable binding, a touch-start on a bound element
    that the guard does not let pass (it answers falsy, throws or is not
    callable) changes no class, queues no timeout and invokes nothing: a
    cycle in progress on the element is left as it is. *)
Theorem X4_blocked_touchstart (b : binding) (w : world Env) (el ev : nat) :
  touch_binding b -> el ∈ b_elems b ->
  guard_value (b_cfg b) el (w_env w) <> Some true ->
  same_page w (fst (step b w (Dispatch "touchstart" el ev))) /\
  w_calls (fst (step b w (Dispatch "touchstart" el ev))) = w_calls w.
Proof.
  intros Hb Hel Hg. rewrite step_touchstart by done.
  destruct (on_touchstart (b_cfg b) el ev w) as [w' r] eqn:Hrun. simpl.
  apply on_touchstart_spec in Hrun as (_ & Hc & Hp & [H|H]).
  - by destruct H as [H _].
  - destruct H as (_ & Hcl & Ht & Hn). by split.
Qed.

Lemma step_touchmove_off b el ev w :
  touch_binding b ->
  truthy (cancelOnMove (b_cfg b)) = false ->
  step b w (Dispatch "touchmove" el ev) = (w, None).
Proof.
  intros Hb Hcom.
  destruct (decide (el ∈ b_elems b)) as [Hin|Hout].
  - rewrite step_dispatch_touch by done. by rewrite Hcom.
  - unfold step. by rewrite bool_decide_eq_false_2.
Qed.

(** X5.  Under a touch-capable binding with a falsy [cancelOnMove], no
    handler is bound for touch-move: erasing the touch-moves from a trace
    changes neither the world it ends in nor the exceptions it raises. *)
Theorem X5_touchmove_ignored (b : binding) (w : world Env)
    (tr : list (label Env)) :
  touch_binding b ->
  truthy (cancelOnMove (b_cfg b)) = false ->
  exec b w tr = exec b w (without_touchmoves tr).
Proof.
  intros Hb Hcom. unfold without_touchmoves. revert w.
  induction tr as [|l tr IH]; intros w; [done|].
  rewrite filter_cons. destruct (is_touchmove l) eqn:Hl.
  - rewrite decide_False by done.
    destruct l as [ty el ev| |]; try discriminate Hl.
    simpl in Hl. apply String.eqb_eq in Hl as ->.
    cbn [exec]. rewrite step_touchmove_off by done.
    rewrite IH. by destruct (exec b w _).
  - rewrite decide_True by done. cbn [exec].
    destruct (step b w l) as [w1 r]. by rewrite IH.
Qed.

(** X6.  A long press, with a callable action and a guard that always
    answers true: after the touch-start and its timeout the element is
    highlighted and nothing has been invoked; the touch-end then removes
    the highlight and invokes the action once.  The element is left with
    ['touch-started'], not without markers. *)
Theorem X6_long_press (b : binding) (w : world Env) (el ev1 ev2 : nat) :
  touch_binding b -> el ∈ b_elems b ->
  is_function (callback (b_cfg b)) = true ->
  guard_always_true (b_cfg b) ->
  let start := Dispatch "touchstart" el ev1 in
  let finish := Dispatch "touchend" el ev2 in
  let fire := Timeout (w_next w) in
  let w2 := run b w [start; fire] in
  let w3 := run b w [start; fire; finish] in
  active (w_classes w2 el) /\ pending (w_classes w2 el) /\
  w_calls w2 = w_calls w /\
  ~ active (w_classes w3 el) /\ pending (w_classes w3 el) /\
  ~ ended_early (w_classes w3 el) /\
  w_calls w3 = w_calls w ++ [Call (VElem el) [VEvent ev2]].
Proof.
  intros Hb Hel Hf Hg. cbv zeta.
  rewrite !run_cons, !run_nil.
  rewrite step_touchstart by done.
  pose proof (touchstart_passes (b_cfg b) el ev1 w (Hg _ _))
    as (Hp1 & Ha1 & He1 & Ht1 & _ & Hc1 & _).
  remember (fst (on_touchstart (b_cfg b) el ev1 w)) as w1 eqn:Hw1.
  rewrite (step_timeout_found b (w_next w)
             (Timer el ev1 (touchDelay (b_cfg b))) (w_timers w) w1)
    by (rewrite Ht1; apply take_timer_head).
  destruct (timer_callback (b_cfg b) (Timer el ev1 (touchDelay (b_cfg b)))
              (set_timers (w_timers w) w1)) as [w2 r2] eqn:Hw2.
  apply timer_callback_spec in Hw2 as (_ & _ & [H|[H|H]]); simpl in H.
  { by destruct H as [H _]. }
  2:{ by destruct H as (_ & H & _). }
  destruct H as (_ & _ & Hcl2 & Hc2 & _). cbn [fst].
  assert (Ha2 : active (w_classes w2 el)).
  { unfold active. rewrite Hcl2. set_solver. }
  assert (Hp2 : pending (w_classes w2 el)).
  { unfold pending in *. rewrite Hcl2. set_solver. }
  assert (He2 : ~ ended_early (w_classes w2 el)).
  { unfold ended_early, pending, active in *. rewrite Hcl2. set_solver. }
  rewrite step_touchend by done.
  rewrite (on_touchend_active _ _ _ _ Ha2).
  set (w2' := set_classes _ w2).
  pose proof (fireCallback_invokes (b_cfg b) el ev2 w2' Hf (Hg _ _))
    as ((Hcl & _) & Hl).
  rewrite Hcl, Hl. subst w2'. simpl. rewrite fn_lookup_insert.
  unfold active, pending, ended_early in *. rewrite Hc2, Hc1.
  split_and!; auto; set_solver.
Qed.

(** X14.  Under a touch-capable binding, an event on a bound element that
    is neither a touch-start, a touch-end nor a touch-move changes no
    class, queues nothing and invokes nothing, whatever the action is; a
    click has its default prevented and an event of any other type is not
    handled at all. *)
Theorem X14_click_only_prevented (b : binding) (w : world Env)
    (ty : string) (el ev : nat) :
  touch_binding b -> el ∈ b_elems b ->
  ty <> "touchstart" -> ty <> "touchend" -> ty <> "touchmove" ->
  let r := step b w (Dispatch ty el ev) in
  w_classes (fst r) = w_classes w /\ w_timers (fst r) = w_timers w /\
  w_calls (fst r) = w_calls w /\ w_env (fst r) = w_env w /\
  snd r = None /\
  w_prevented (fst r)
  = (if String.eqb ty "click" then w_prevented w ++ [ev] else w_prevented w).
Proof.
  intros Hb Hel H1 H2 H3. cbv zeta.
  rewrite step_dispatch_touch by done.
  apply String.eqb_neq in H1, H2, H3. rewrite H1, H2, H3. simpl.
  by destruct (String.eqb ty "click").
Qed.

(** *** The binder *)

(** X1.  [$.fn.tappable] throws for one argument only: [null], whose
    [callback] property cannot be read.  Every other value, of whatever
    type, yields a binding. *)
Theorem X1_binder_throws_only_on_null (touchSupported : bool)
    (options : jsval) (this : list nat) :
  (exists e, tappable touchSupported options this = inr e)
  <-> options = VNull.
Proof.
  unfold tappable, read_options. split.
  - intros [e He]. by destruct options.
  - intros ->. by eexists.
Qed.

Lemma step_dispatch_fallback b ty el ev w :
  fallback_binding b -> el ∈ b_elems b ->
  is_function (callback (b_cfg b)) = true ->
  step b w (Dispatch ty el ev)
  = if String.eqb ty "click"
    then outcome (on_click_fallback (b_cfg b) el ev w)
    else (w, None).
Proof.
  unfold fallback_binding. intros Hb Hel Hf. unfold step.
  rewrite bool_decide_eq_true_2 by done. rewrite Hb.
  unfold bound_handlers. rewrite Hf. simpl.
  destruct (String.eqb ty "click"); [apply outcome_then_ret|done].
Qed.

(** X2.  Without touch support and without a callable [callback] nothing
    is bound: a trace of events, on whatever elements and of whatever
    types, leaves the world as it was and raises nothing. *)
Theorem X2_nothing_bound (b : binding) (w : world Env)
    (tr : list (label Env)) :
  fallback_binding b ->
  is_function (callback (b_cfg b)) = false ->
  Forall (fun l => is_dispatch l = true) tr ->
  b_handlers b = [] /\ exec b w tr = (w, []).
Proof.
  unfold fallback_binding. intros Hb Hf Htr.
  assert (Hnil : b_handlers b = []).
  { rewrite Hb. unfold bound_handlers. by rewrite Hf. }
  split; [done|].
  induction Htr as [|l tr Hl Htr IH]; [done|].
  destruct l as [ty el ev| |]; try discriminate Hl.
  cbn [exec step]. rewrite Hnil. simpl.
  case_bool_decide; by rewrite IH.
Qed.

(** X3.  Without touch support and with a callable [callback], only the
    click handler is bound.  A click on a bound element invokes the
    action once, with the element as receiver and the click event as
    argument, if the guard answers true, and does not invoke it if the
    guard answers false; an event of any other type is not handled.  No
    event changes a class, queues a timeout or has its default
    prevented. *)
Theorem X3_click_fallback (b : binding) (w : world Env) (el ev : nat) :
  fallback_binding b -> el ∈ b_elems b ->
  is_function (callback (b_cfg b)) = true ->
  (guard_value (b_cfg b) el (w_env w) = Some true ->
   w_calls (fst (step b w (Dispatch "click" el ev)))
   = w_calls w ++ [Call (VElem el) [VEvent ev]]) /\
  (guard_value (b_cfg b) el (w_env w) = Some false ->
   w_calls (fst (step b w (Dispatch "click" el ev))) = w_calls w /\
   snd (step b w (Dispatch "click" el ev)) = None) /\
  (forall ty, same_page w (fst (step b w (Dispatch ty el ev)))) /\
  (forall ty, ty <> "click" -> step b w (Dispatch ty el ev) = (w, None)).
Proof.
  intros Hb Hel Hf. split_and!.
  - intros Hg. rewrite step_dispatch_fallback by done. simpl.
    rewrite fst_outcome. unfold on_click_fallback, bind.
    rewrite (call_onlyIf_value _ _ _ _ Hg).
    unfold_m. rewrite Hf. destruct (callback (b_cfg b)); try discriminate Hf.
    by destruct (apply_fn _ _ _ _) as [e' [v|v]].
  - intros Hg. rewrite step_dispatch_fallback by done. simpl.
    unfold on_click_fallback, bind.
    by rewrite (call_onlyIf_value _ _ _ _ Hg).
  - intros ty. rewrite step_dispatch_fallback by done.
    destruct (String.eqb ty "click"); [|done].
    rewrite fst_outcome.
    destruct (on_click_fallback _ _ _ _) as [w' r] eqn:Hrun.
    by apply on_click_fallback_spec in Hrun as (? & _).
  - intros ty Hty. rewrite step_dispatch_fallback by done.
    apply String.eqb_neq in Hty. by rewrite Hty.
Qed.

(** *** A touch-start that passes the guard *)

(** X15.  Under a touch-capable binding, a touch-start on a bound
    element that passes the guard starts over, whatever the element
    carried: it is left pending, neither highlighted nor ['touch-ended'];
    one timeout is queued in front of those already queued (none is
    cancelled), for this element, this event and the configured delay; the
    log is as it was. *)
Theorem X15_touchstart_starts_over (b : binding) (w : world Env)
    (el ev : nat) :
  touch_binding b -> el ∈ b_elems b ->
  guard_value (b_cfg b) el (w_env w) = Some true ->
  let w1 := fst (step b w (Dispatch "touchstart" el ev)) in
  pending (w_classes w1 el) /\ ~ active (w_classes w1 el) /\
  ~ ended_early (w_classes w1 el) /\
  w_timers w1 = (w_next w, Timer el ev (touchDelay (b_cfg b))) :: w_timers w /\
  w_calls w1 = w_calls w /\
  snd (step b w (Dispatch "touchstart" el ev)) = None.
Proof.
  intros Hb Hel Hg. cbv zeta. rewrite step_dispatch_touch by done.
  cbn [String.eqb Ascii.eqb Bool.eqb]. rewrite fst_outcome.
  pose proof (touchstart_passes (b_cfg b) el ev w Hg)
    as (Hp & Ha & He & Ht & _ & Hc & _).
  split_and!; try done.
  destruct (on_touchstart (b_cfg b) el ev w) as [w' r] eqn:Hrun.
  apply on_touchstart_spec in Hrun as (_ & _ & _ & [H|H]).
  - by destruct H as (_ & _ & _ & _ & ->).
  - by destruct H as [H _].
Qed.

End Tappable.

Arguments step {Env}.
Arguments exec {Env}.
Arguments run {Env}.
Arguments timer_callback {Env}.
Arguments on_touchend {Env}.
Arguments call_callback {Env}.
Arguments guard_value {Env}.
Arguments guard_always_true {Env}.
Arguments invoked {Env}.
Arguments pending_for {Env}.
Arguments touchstarts_on {Env}.
Arguments same_page {Env}.
Arguments set_timers {Env}.
Arguments calls_on {Env}.
Arguments acts_on {Env}.
Arguments without_touchmoves {Env}.
Arguments is_dispatch {Env}.

(** ** The sample page: the bindings are the binder's *)

Lemma guarded_binding_bound :
  tappable true guarded_options [button] = inl guarded_binding.
Proof. reflexivity. Qed.

Lemma plain_binding_bound :
  tappable true (VFun (FnUser 0)) [button] = inl plain_binding.
Proof. reflexivity. Qed.

Lemma broken_binding_bound :
  tappable true broken_options [button] = inl broken_binding.
Proof. reflexivity. Qed.

Lemma desktop_binding_bound :
  tappable false (VFun (FnUser 0)) [button] = inl desktop_binding.
Proof. reflexivity. Qed.

Lemma inert_binding_bound :
  tappable false VUndefined [button] = inl inert_binding.
Proof. reflexivity. Qed.

Lemma steady_binding_bound :
  tappable true steady_options [button] = inl steady_binding.
Proof. reflexivity. Qed.

Lemma misguarded_binding_bound :
  tappable true misguarded_options [button] = inl misguarded_binding.
Proof. reflexivity. Qed.

Ltac decide_closed :=
  unfold idle, exclusive, pending, active, ended_early;
  apply (bool_decide_unpack _); vm_compute; exact I.

(** ** Instances of the theorems on the sample page *)

(** After the cancelled touch the button has no markers and timeout 0 is
    still queued: running it is a no-op. *)
Lemma idle_timeout_noop_example :
  idle (w_classes (run demo_fn guarded_binding fresh_page cancelled_touch)
          button) /\
  timer_callback demo_fn (b_cfg guarded_binding) (Timer button 1 (VNum 150))
    (run demo_fn guarded_binding fresh_page cancelled_touch)
  = (run demo_fn guarded_binding fresh_page cancelled_touch, inl tt).
Proof.
  split.
  - decide_closed.
  - apply (idle_timeout_noop bool demo_fn (b_cfg guarded_binding)
             (Timer button 1 (VNum 150))
             (run demo_fn guarded_binding fresh_page cancelled_touch)).
    decide_closed.
Defined.

(** A fresh page has no left-over timeout: the touch-start, two
    touch-ends and the timeout in between invoke the action at most
    once. *)
Lemma cycle_invocations_bounded_example :
  pending_for button fresh_page = [] /\
  invoked button
    (run demo_fn guarded_binding fresh_page
       (Dispatch "touchstart" button 1
        :: [Dispatch "touchend" button 2; Timeout 0;
            Dispatch "touchend" button 3; Timeout 0]))
  <= invoked button fresh_page + 1.
Proof.
  split.
  - reflexivity.
  - apply (cycle_invocations_bounded bool demo_fn guarded_binding fresh_page button 1
             [Dispatch "touchend" button 2; Timeout 0;
              Dispatch "touchend" button 3; Timeout 0]).
    + reflexivity.
    + vm_compute. reflexivity.
    + reflexivity.
Defined.

(** After touch-start and touch-end the button carries ['touch-ended'];
    the timeout leaves it there. *)
Lemma C3_ended_early_timer_witness :
  ended_early (w_classes (run demo_fn guarded_binding fresh_page quick_tap)
                 button) /\
  ended_early
    (w_classes
       (fst (timer_callback demo_fn (b_cfg guarded_binding)
               (Timer button 3 (VNum 150))
               (run demo_fn guarded_binding fresh_page quick_tap)))
       button).
Proof.
  split.
  - decide_closed.
  - apply (C3_ended_early_timer bool demo_fn (b_cfg guarded_binding)
             (Timer button 3 (VNum 150))
             (run demo_fn guarded_binding fresh_page quick_tap)).
    decide_closed.
Defined.

(** From the fresh page, the cancelled touch, the quick tap and both
    timeouts: the button is never highlighted and ['touch-ended'] at
    once. *)
Lemma C4_ended_early_exclusive_witness :
  (forall x, exclusive (w_classes fresh_page x)) /\
  ~ (active
       (w_classes
          (run demo_fn guarded_binding fresh_page
             (cancelled_touch ++ quick_tap ++ [Timeout 0; Timeout 1]))
          button) /\
     ended_early
       (w_classes
          (run demo_fn guarded_binding fresh_page
             (cancelled_touch ++ quick_tap ++ [Timeout 0; Timeout 1]))
          button)).
Proof.
  assert (H0 : forall x, exclusive (w_classes fresh_page x)).
  { intros x. simpl. decide_closed. }
  split.
  - exact H0.
  - apply (C4_ended_early_exclusive bool demo_fn guarded_binding fresh_page
             (cancelled_touch ++ quick_tap ++ [Timeout 0; Timeout 1]) H0).
Defined.

(** The plain binding has the always-true guard: the quick tap followed by
    its timeout invokes the action once, with the touch-start event. *)
Lemma C5_quick_tap_witness :
  guard_always_true demo_fn (b_cfg plain_binding) /\
  w_calls
    (run demo_fn plain_binding fresh_page
       [Dispatch "touchstart" button 3; Dispatch "touchend" button 4;
        Timeout (w_next fresh_page)])
  = w_calls fresh_page ++ [Call (VElem button) [VEvent 3]].
Proof.
  assert (Hg : guard_always_true demo_fn (b_cfg plain_binding)).
  { intros el e. reflexivity. }
  split.
  - exact Hg.
  - apply (C5_quick_tap bool demo_fn plain_binding fresh_page button 3 4).
    + reflexivity.
    + decide_closed.
    + reflexivity.
    + exact Hg.
Defined.

(** A touch-move after the touch-start: the queued timeout and a later
    touch-end add no invocation. *)
Lemma C6_move_cancels_witness :
  truthy (cancelOnMove (b_cfg guarded_binding)) = true /\
  invoked button
    (run demo_fn guarded_binding
       (run demo_fn guarded_binding
          (run demo_fn guarded_binding fresh_page
             [Dispatch "touchstart" button 1])
          [Dispatch "touchmove" button 2])
       [Timeout 0; Dispatch "touchend" button 3])
  = invoked button
      (run demo_fn guarded_binding fresh_page
         [Dispatch "touchstart" button 1]).
Proof.
  split.
  - reflexivity.
  - apply (C6_move_cancels bool demo_fn guarded_binding
             (run demo_fn guarded_binding fresh_page
                [Dispatch "touchstart" button 1])
             button 2 [Timeout 0; Dispatch "touchend" button 3]).
    + reflexivity.
    + decide_closed.
    + reflexivity.
    + vm_compute. reflexivity.
Defined.

(** The button is touched while enabled, highlighted by the timeout, then
    disabled by the application: the touch-end removes the highlight and
    invokes nothing. *)
Lemma C7_guard_reevaluated_witness :
  guard_value demo_fn (b_cfg guarded_binding) button
    (w_env (run demo_fn guarded_binding fresh_page
              [Dispatch "touchstart" button 1; Timeout 0; Extern false]))
  = Some false /\
  active
    (w_classes
       (run demo_fn guarded_binding fresh_page
          [Dispatch "touchstart" button 1; Timeout 0; Extern false])
       button) /\
  w_calls
    (fst (on_touchend demo_fn (b_cfg guarded_binding) button 2
            (run demo_fn guarded_binding fresh_page
               [Dispatch "touchstart" button 1; Timeout 0; Extern false])))
  = w_calls
      (run demo_fn guarded_binding fresh_page
         [Dispatch "touchstart" button 1; Timeout 0; Extern false]).
Proof.
  assert (Hg : guard_value demo_fn (b_cfg guarded_binding) button
                 (w_env (run demo_fn guarded_binding fresh_page
                           [Dispatch "touchstart" button 1; Timeout 0;
                            Extern false]))
               = Some false).
  { vm_compute. reflexivity. }
  assert (Ha : active
                 (w_classes
                    (run demo_fn guarded_binding fresh_page
                       [Dispatch "touchstart" button 1; Timeout 0;
                        Extern false])
                    button)).
  { decide_closed. }
  split; [exact Hg|]. split; [exact Ha|].
  exact (proj1
           (proj1
              (C7_guard_reevaluated bool demo_fn (b_cfg guarded_binding)
                 button 2 (Timer button 1 (VNum 150))
                 (run demo_fn guarded_binding fresh_page
                    [Dispatch "touchstart" button 1; Timeout 0;
                     Extern false])
                 Hg eq_refl)
              Ha)).
Defined.

(** With the string ['save'] as callback, the quick tap and its timeout
    invoke nothing. *)
Lemma C9_non_callable_action_witness :
  is_function (callback (b_cfg broken_binding)) = false /\
  w_calls (run demo_fn broken_binding fresh_page (quick_tap ++ [Timeout 0]))
  = w_calls fresh_page.
Proof.
  split.
  - reflexivity.
  - apply (C9_non_callable_action bool demo_fn true broken_options [button]
             broken_binding fresh_page (quick_tap ++ [Timeout 0])).
    + reflexivity.
    + reflexivity.
    + reflexivity.
Defined.

(** The plain binding on the highlighted path: the action receives the
    touch-end event. *)
Lemma C10_event_passed_witness :
  guard_always_true demo_fn (b_cfg plain_binding) /\
  w_calls
    (run demo_fn plain_binding fresh_page
       [Dispatch "touchstart" button 3; Timeout (w_next fresh_page);
        Dispatch "touchend" button 4])
  = w_calls fresh_page ++ [Call (VElem button) [VEvent 4]].
Proof.
  assert (Hg : guard_always_true demo_fn (b_cfg plain_binding)).
  { intros el e. reflexivity. }
  split.
  - exact Hg.
  - apply (C10_event_passed bool demo_fn plain_binding fresh_page button 3 4).
    + reflexivity.
    + decide_closed.
    + reflexivity.
    + exact Hg.
Defined.

(** ** Where the code departs from its description *)

(** C1.  The code where it departs from the claim and from its own header
    (firing is cancelled when the finger moves; the callback is called once
    the delay has expired).  With a delay of 150 ms: touch-start at 0 ms
    (timeout 0), touch-move at 20 ms, touch-start at 40 ms (timeout 1),
    touch-end at 60 ms, timeout 0 at 150 ms, timeout 1 at 190 ms.  Without
    the left-over timeout 0 the quick tap invokes the action once, with its
    own touch-start event 3; with it, the action is invoked twice, the
    first time by the left-over timeout with the event 1 of the cancelled
    touch. *)
Lemma C1_left_over_timeout_invokes_again :
  w_calls
    (run demo_fn guarded_binding
       (run demo_fn guarded_binding fresh_page cancelled_touch)
       (quick_tap ++ [Timeout 1]))
  = [Call (VElem button) [VEvent 3]] /\
  w_calls
    (run demo_fn guarded_binding
       (run demo_fn guarded_binding fresh_page cancelled_touch)
       (quick_tap ++ [Timeout 0; Timeout 1]))
  = [Call (VElem button) [VEvent 1]; Call (VElem button) [VEvent 3]].
Proof. split; vm_compute; reflexivity. Qed.

(** C2.  The code where it departs from the claim: one cycle with two
    invocations.  In the world after the cancelled touch (timeout 0 still
    queued) the guard lets the touch-start 3 pass; the events that follow
    it (touch-end, timeout 0, timeout 1) hold no further touch-start on the
    button; and the log of invocations on the button grows by two. *)
Lemma C2_second_invocation_in_one_cycle :
  guard_value demo_fn (b_cfg guarded_binding) button
    (w_env (run demo_fn guarded_binding fresh_page cancelled_touch))
  = Some true /\
  touchstarts_on button
    [Dispatch "touchend" button 4; Timeout 0; Timeout 1 : label bool] = 0 /\
  invoked button
    (run demo_fn guarded_binding
       (run demo_fn guarded_binding fresh_page cancelled_touch)
       (Dispatch "touchstart" button 3
        :: [Dispatch "touchend" button 4; Timeout 0; Timeout 1]))
  = invoked button (run demo_fn guarded_binding fresh_page cancelled_touch)
    + 2.
Proof. split_and!; vm_compute; reflexivity. Qed.

(** C7, as stated, fails for the timeout: the button is touched and
    released while enabled, then disabled; when the timeout runs nothing
    is invoked, and the button still carries ['touch-ended']: the markers
    are not cleared, the button is not idle. *)
Lemma C7_marker_stays_counterexample :
  w_calls
    (run demo_fn guarded_binding fresh_page
       [Dispatch "touchstart" button 1; Dispatch "touchend" button 2;
        Extern false; Timeout 0])
  = [] /\
  ended_early
    (w_classes
       (run demo_fn guarded_binding fresh_page
          [Dispatch "touchstart" button 1; Dispatch "touchend" button 2;
           Extern false; Timeout 0])
       button) /\
  ~ idle
      (w_classes
         (run demo_fn guarded_binding fresh_page
            [Dispatch "touchstart" button 1; Dispatch "touchend" button 2;
             Extern false; Timeout 0])
         button).
Proof.
  split; [vm_compute; reflexivity|]. split; decide_closed.
Qed.

(** C3, as stated, fails: after touch-start, touch-end and the timeout the
    action has been invoked and the button still carries ['touch-ended'];
    it is not idle. *)
Lemma C3_marker_stays_counterexample :
  w_calls (run demo_fn guarded_binding fresh_page (quick_tap ++ [Timeout 0]))
  = [Call (VElem button) [VEvent 3]] /\
  ended_early
    (w_classes
       (run demo_fn guarded_binding fresh_page (quick_tap ++ [Timeout 0]))
       button) /\
  ~ idle
      (w_classes
         (run demo_fn guarded_binding fresh_page (quick_tap ++ [Timeout 0]))
         button).
Proof.
  split; [vm_compute; reflexivity|]. split; decide_closed.
Qed.

(** C4, as stated, fails: after a touch-start and its timeout the button
    carries ['touch-started'] and ['touched'] together. *)
Lemma C4_pending_and_active_counterexample :
  pending
    (w_classes
       (run demo_fn guarded_binding fresh_page
          [Dispatch "touchstart" button 1; Timeout 0])
       button) /\
  active
    (w_classes
       (run demo_fn guarded_binding fresh_page
          [Dispatch "touchstart" button 1; Timeout 0])
       button).
Proof. split; decide_closed. Qed.

(** ** Instances of the further properties *)

Lemma X1_binder_throws_only_on_null_witness :
  exists e, tappable true VNull [button] = inr e.
Proof.
  apply (proj2 (X1_binder_throws_only_on_null true VNull [button])).
  reflexivity.
Defined.

Lemma X2_nothing_bound_witness :
  is_function (callback (b_cfg inert_binding)) = false /\
  exec demo_fn inert_binding fresh_page
    [Dispatch "click" button 1; Dispatch "touchstart" button 2]
  = (fresh_page, []).
Proof.
  split.
  - reflexivity.
  - apply (X2_nothing_bound bool demo_fn inert_binding fresh_page
             [Dispatch "click" button 1; Dispatch "touchstart" button 2]).
    + reflexivity.
    + reflexivity.
    + repeat constructor.
Defined.

Lemma X3_click_fallback_witness :
  guard_value demo_fn (b_cfg desktop_binding) button (w_env fresh_page)
  = Some true /\
  w_calls (fst (step demo_fn desktop_binding fresh_page
                  (Dispatch "click" button 1)))
  = w_calls fresh_page ++ [Call (VElem button) [VEvent 1]].
Proof.
  split.
  - reflexivity.
  - apply (X3_click_fallback bool demo_fn desktop_binding fresh_page
             button 1).
    + reflexivity.
    + decide_closed.
    + reflexivity.
    + reflexivity.
Defined.

(** The button is highlighted, then disabled; a second finger changes
    nothing. *)
Lemma X4_blocked_touchstart_witness :
  guard_value demo_fn (b_cfg guarded_binding) button
    (w_env (run demo_fn guarded_binding fresh_page
              [Dispatch "touchstart" button 1; Timeout 0; Extern false]))
  <> Some true /\
  w_classes
    (fst (step demo_fn guarded_binding
            (run demo_fn guarded_binding fresh_page
               [Dispatch "touchstart" button 1; Timeout 0; Extern false])
            (Dispatch "touchstart" button 2)))
  = w_classes
      (run demo_fn guarded_binding fresh_page
         [Dispatch "touchstart" button 1; Timeout 0; Extern false]).
Proof.
  assert (Hg : guard_value demo_fn (b_cfg guarded_binding) button
                 (w_env (run demo_fn guarded_binding fresh_page
                           [Dispatch "touchstart" button 1; Timeout 0;
                            Extern false]))
               <> Some true).
  { intros H. vm_compute in H. discriminate H. }
  split; [exact Hg|].
  apply (X4_blocked_touchstart bool demo_fn guarded_binding
           (run demo_fn guarded_binding fresh_page
              [Dispatch "touchstart" button 1; Timeout 0; Extern false])
           button 2).
  - reflexivity.
  - decide_closed.
  - exact Hg.
Defined.

Lemma X5_touchmove_ignored_witness :
  truthy (cancelOnMove (b_cfg steady_binding)) = false /\
  exec demo_fn steady_binding fresh_page wobbly_tap
  = exec demo_fn steady_binding fresh_page (without_touchmoves wobbly_tap).
Proof.
  split.
  - reflexivity.
  - apply (X5_touchmove_ignored bool demo_fn steady_binding fresh_page
             wobbly_tap).
    + reflexivity.
    + reflexivity.
Defined.

Lemma X6_long_press_witness :
  guard_always_true demo_fn (b_cfg plain_binding) /\
  active
    (w_classes
       (run demo_fn plain_binding fresh_page
          [Dispatch "touchstart" button 3; Timeout (w_next fresh_page)])
       button).
Proof.
  assert (Hg : guard_always_true demo_fn (b_cfg plain_binding)).
  { intros el e. reflexivity. }
  split.
  - exact Hg.
  - apply (X6_long_press bool demo_fn plain_binding fresh_page button 3 4).
    + reflexivity.
    + decide_closed.
    + reflexivity.
    + exact Hg.
Defined.

Lemma X7_other_elements_untouched_witness :
  acts_on fresh_page (Dispatch "touchstart" button 1) <> Some 8 /\
  w_classes
    (fst (step demo_fn guarded_binding fresh_page
            (Dispatch "touchstart" button 1))) 8
  = w_classes fresh_page 8.
Proof.
  assert (Hx : acts_on fresh_page (Dispatch "touchstart" button 1)
               <> Some 8).
  { intros H. discriminate H. }
  split; [exact Hx|].
  apply (X7_other_elements_untouched bool demo_fn guarded_binding fresh_page
           (Dispatch "touchstart" button 1) 8 Hx).
Defined.

Lemma X8_foreign_classes_kept_witness :
  foreign "btn" /\
  "btn" ∈ w_classes (run demo_fn guarded_binding styled_page
                       (cancelled_touch ++ quick_tap ++ [Timeout 0]))
            button.
Proof.
  assert (Hc : foreign "btn").
  { repeat split; intros H; discriminate H. }
  split; [exact Hc|].
  apply (X8_foreign_classes_kept bool demo_fn guarded_binding styled_page
           (cancelled_touch ++ quick_tap ++ [Timeout 0]) "btn" button Hc).
  decide_closed.
Defined.

Lemma X9_unbound_element_untouched_witness :
(8 ∉ b_elems guarded_binding) /\
  invoked 8
    (run demo_fn guarded_binding fresh_page
       [Dispatch "touchstart" 8 1; Dispatch "touchend" 8 2; Timeout 0])
  = invoked 8 fresh_page.
Proof.
  assert (Hel : 8 ∉ b_elems guarded_binding) by decide_closed.
  split; [exact Hel|].
  apply (X9_unbound_element_untouched bool demo_fn guarded_binding fresh_page
           [Dispatch "touchstart" 8 1; Dispatch "touchend" 8 2; Timeout 0]
           8 Hel).
  reflexivity.
Defined.

Lemma X11_invocations_bounded_by_touchstarts_witness :
  ~ active (w_classes fresh_page button) /\
  invoked button
    (run demo_fn guarded_binding fresh_page
       (cancelled_touch ++ quick_tap ++ [Timeout 0; Timeout 1]))
  <= invoked button fresh_page
     + touchstarts_on button
         (cancelled_touch ++ quick_tap ++ [Timeout 0; Timeout 1]).
Proof.
  assert (Ha : ~ active (w_classes fresh_page button)) by decide_closed.
  split; [exact Ha|].
  apply (X11_invocations_bounded_by_touchstarts bool demo_fn guarded_binding
           fresh_page (cancelled_touch ++ quick_tap ++ [Timeout 0; Timeout 1])
           button).
  - reflexivity.
  - exact Ha.
  - reflexivity.
Defined.

Lemma X12_no_exception_of_its_own_witness :
  is_function (onlyIf (b_cfg guarded_binding)) = true /\
  Forall (fun e => exists v, e = Thrown v)
    (snd (exec demo_fn guarded_binding fresh_page
            (quick_tap ++ [Timeout 0]))).
Proof.
  split.
  - reflexivity.
  - apply (X12_no_exception_of_its_own bool demo_fn true guarded_options
             [button] guarded_binding fresh_page (quick_tap ++ [Timeout 0])).
    + reflexivity.
    + reflexivity.
Defined.

Lemma X13_guard_not_callable_witness :
  is_function (onlyIf (b_cfg misguarded_binding)) = false /\
  step demo_fn misguarded_binding fresh_page (Dispatch "touchstart" button 1)
  = (fresh_page, Some (NotCallable (VBool true))).
Proof.
  split.
  - reflexivity.
  - apply (X13_guard_not_callable bool demo_fn misguarded_binding fresh_page
             button 1).
    + reflexivity.
    + decide_closed.
    + reflexivity.
Defined.

Lemma X14_click_only_prevented_witness :
  w_calls (fst (step demo_fn plain_binding fresh_page
                  (Dispatch "click" button 5)))
  = w_calls fresh_page /\
  w_prevented (fst (step demo_fn plain_binding fresh_page
                      (Dispatch "click" button 5)))
  = w_prevented fresh_page ++ [5].
Proof.
  assert (H : let r := step demo_fn plain_binding fresh_page
                         (Dispatch "click" button 5) in
              w_classes (fst r) = w_classes fresh_page /\
              w_timers (fst r) = w_timers fresh_page /\
              w_calls (fst r) = w_calls fresh_page /\
              w_env (fst r) = w_env fresh_page /\
              snd r = None /\
              w_prevented (fst r)
              = (if String.eqb "click" "click"
                 then w_prevented fresh_page ++ [5]
                 else w_prevented fresh_page)).
  { apply (X14_click_only_prevented bool demo_fn plain_binding fresh_page
             "click" button 5).
    - reflexivity.
    - decide_closed.
    - intros H; discriminate H.
    - intros H; discriminate H.
    - intros H; discriminate H. }
  destruct H as (_ & _ & Hc & _ & _ & Hp). split; [exact Hc|exact Hp].
Defined.

(** The button still carries ['touch-ended'] from the quick tap; the next
    touch-start leaves it pending only. *)
Lemma X15_touchstart_starts_over_witness :
  guard_value demo_fn (b_cfg guarded_binding) button
    (w_env (run demo_fn guarded_binding fresh_page
              (quick_tap ++ [Timeout 0])))
  = Some true /\
  ~ ended_early
      (w_classes
         (fst (step demo_fn guarded_binding
                 (run demo_fn guarded_binding fresh_page
                    (quick_tap ++ [Timeout 0]))
                 (Dispatch "touchstart" button 5)))
         button).
Proof.
  assert (Hg : guard_value demo_fn (b_cfg guarded_binding) button
                 (w_env (run demo_fn guarded_binding fresh_page
                           (quick_tap ++ [Timeout 0])))
               = Some true).
  { vm_compute. reflexivity. }
  split; [exact Hg|].
  apply (X15_touchstart_starts_over bool demo_fn guarded_binding
           (run demo_fn guarded_binding fresh_page (quick_tap ++ [Timeout 0]))
           button 5).
  - reflexivity.
  - decide_closed.
  - exact Hg.
Defined.
